(** * webcam-wave: the frame pipeline and the transition-counting state machine

    A shallow embedding of [vision.ts] (and of its compiled twin [vision.js]):
    the class [GreyscaleImage], its subclass [TransitionCountingImage] and the
    body of the periodic tick installed by [onload].

    Conventions of the embedding.
    - A [Uint8ClampedArray] is a [list Z]; a read [a[k]] is a lookup that
      answers [None] where JavaScript answers [undefined] (any index outside
      [0 .. length-1], negative ones included), a write [a[k] = v] converts
      [v] with the array's own conversion ([ToUint8Clamp]) and is ignored
      out of range, as typed arrays do.
    - A JavaScript number is [NaN] or a rational.  Every intermediate value
      of the operations below is an integer, a third of an integer or the
      product of an integer with a parameter, so the code never produces an
      infinity from finite parameters; rounding of the doubles is not
      modelled (the rational is the exact value).
    - A method that assigns to [this] is a function returning the new
      [this]; the objects it only reads are plain arguments.  For the tick,
      which passes the images around by reference, the objects live in a
      heap and a method call rewrites the object its receiver refers to. *)

From Stdlib Require Import ZArith QArith Qround Lia List Bool.
From stdpp Require Import base list.

Local Open Scope Z_scope.

(** ** JavaScript numbers *)

Module Js.

Inductive number : Type :=
| NaN : number
| Fin : Q -> number.

Definition of_Z (z : Z) : number := Fin (inject_Z z).

(** [ToNumber] of the result of an array read: [undefined] becomes [NaN]. *)
Definition of_read (o : option Z) : number :=
  match o with
  | Some z => of_Z z
  | None => NaN
  end.

Definition add (a b : number) : number :=
  match a, b with
  | Fin x, Fin y => Fin (x + y)%Q
  | _, _ => NaN
  end.

Definition sub (a b : number) : number :=
  match a, b with
  | Fin x, Fin y => Fin (x - y)%Q
  | _, _ => NaN
  end.

Definition mul (a b : number) : number :=
  match a, b with
  | Fin x, Fin y => Fin (x * y)%Q
  | _, _ => NaN
  end.

(** Division by a non-zero literal (the only division of the program is
    [/ 3]). *)
Definition div_pos (a : number) (d : positive) : number :=
  match a with
  | Fin x => Fin (x / inject_Z (Z.pos d))%Q
  | NaN => NaN
  end.

Definition Qlt_bool (x y : Q) : bool := negb (Qle_bool y x).

(** [a >= b] and [a > b]: false as soon as one side is [NaN]. *)
Definition ge (a b : number) : bool :=
  match a, b with
  | Fin x, Fin y => Qle_bool y x
  | _, _ => false
  end.

Definition gt (a b : number) : bool :=
  match a, b with
  | Fin x, Fin y => Qlt_bool y x
  | _, _ => false
  end.

(** [ToUint8Clamp]: [NaN] is 0, the value is clamped to [0, 255] and then
    rounded to the nearest integer, a tie going to the even neighbour. *)
Definition to_uint8_clamp (a : number) : Z :=
  match a with
  | NaN => 0
  | Fin q =>
      if Qle_bool q 0 then 0
      else if Qle_bool 255 q then 255
      else
        let f := Qfloor q in
        let half := (inject_Z f + (1 # 2))%Q in
        if Qlt_bool half q then f + 1
        else if Qlt_bool q half then f
        else if Z.even f then f else f + 1
  end.

(** Loose equality [a == b] of two array reads (numbers or [undefined]). *)
Definition loose_eq (a b : option Z) : bool :=
  match a, b with
  | Some x, Some y => x =? y
  | None, None => true
  | _, _ => false
  end.

End Js.

(** ** Typed arrays *)

Abbreviation Uint8ClampedArray := (list Z).

(** [new Uint8ClampedArray(n)]: [n] zeros. *)
Definition new_array (n : Z) : Uint8ClampedArray := replicate (Z.to_nat n) 0.

(** [a[k]] with [k] any integer. *)
Definition load (a : Uint8ClampedArray) (k : Z) : option Z :=
  if k <? 0 then None else a !! Z.to_nat k.

(** [a[i] = v]. *)
Definition store (a : Uint8ClampedArray) (i : nat) (v : Js.number) : Uint8ClampedArray :=
  <[i := Js.to_uint8_clamp v]> a.

(** [for (var i = 0; i < n; i++) body], the loop state being [S]. *)
Definition for_loop {S : Type} (n : nat) (body : nat -> S -> S) (s : S) : S :=
  fold_left (fun acc i => body i acc) (seq 0 n) s.

(** ** class GreyscaleImage: an 8-bit image *)

Record GreyscaleImage : Type := mkGreyscaleImage {
  data : Uint8ClampedArray;
  width : Z;
  height : Z
}.

(** [new GreyscaleImage()] *)
Definition new_GreyscaleImage : GreyscaleImage :=
  {| data := new_array 0; width := 0; height := 0 |}.

Definition set_data (this : GreyscaleImage) (d : Uint8ClampedArray) : GreyscaleImage :=
  {| data := d; width := width this; height := height this |}.

(** The canvas behind a [CanvasRenderingContext2D]: its size and the bytes
    [getImageData(0, 0, width, height).data] hands out, R,G,B,A per pixel. *)
Record CanvasRenderingContext2D : Type := mkContext {
  canvas_width : Z;
  canvas_height : Z;
  imageData : Uint8ClampedArray
}.

(** The sizes come from a canvas and are never negative. *)
Definition _setSize (this : GreyscaleImage) (w h : Z) : GreyscaleImage :=
  if negb (w =? width this) || negb (h =? height this)
  then {| data := new_array (w * h); width := w; height := h |}
  else this.

Definition read (this : GreyscaleImage) (context : CanvasRenderingContext2D) : GreyscaleImage :=
  let this := _setSize this (canvas_width context) (canvas_height context) in
  let colorPixels := imageData context in
  set_data this
    (for_loop (length (data this))
       (fun i d =>
          let k := Z.of_nat i in
          store d i
            (Js.div_pos
               (Js.add (Js.add (Js.of_read (load colorPixels (k * 4)))
                               (Js.of_read (load colorPixels (k * 4 + 1))))
                       (Js.of_read (load colorPixels (k * 4 + 2))))
               3))
       (data this)).

Definition updateFrom (this source : GreyscaleImage) : GreyscaleImage :=
  let this := _setSize this (width source) (height source) in
  set_data this
    (for_loop (length (data this))
       (fun i d => store d i (Js.of_read (load (data source) (Z.of_nat i))))
       (data this)).

Definition subtract (this other : GreyscaleImage) : GreyscaleImage :=
  set_data this
    (for_loop (length (data this))
       (fun i d =>
          let k := Z.of_nat i in
          store d i
            (Js.add (Js.sub (Js.of_read (load d k)) (Js.of_read (load (data other) k)))
                    (Js.of_Z 128)))
       (data this)).

Definition increaseContrast (this : GreyscaleImage) (factor : Js.number) : GreyscaleImage :=
  set_data this
    (for_loop (length (data this))
       (fun i d =>
          let k := Z.of_nat i in
          store d i
            (Js.add (Js.of_read (load d k))
                    (Js.mul (Js.sub (Js.of_read (load d k)) (Js.of_Z 128)) factor)))
       (data this)).

Definition toBinary (this : GreyscaleImage) (whiteThreshold : Js.number) : GreyscaleImage :=
  set_data this
    (for_loop (length (data this))
       (fun i d =>
          let k := Z.of_nat i in
          store d i
            (Js.add (Js.of_read (load d k))
                    (Js.mul (Js.add (Js.sub (Js.of_read (load d k)) whiteThreshold)
                                    (Js.of_Z 1))
                            (Js.of_Z 255))))
       (data this)).

(** The default value of [whiteThreshold]. *)
Definition toBinary_default (this : GreyscaleImage) : GreyscaleImage :=
  toBinary this (Js.of_Z 128).

Definition pixelSum (this : GreyscaleImage) : Z :=
  fold_left (fun a b => a + b) (data this) 0.

(** The nine reads of one iteration of [discardOutliers], in source order. *)
Definition neighbourSum (d : Uint8ClampedArray) (w i : Z) : Js.number :=
  let rd k := Js.of_read (load d k) in
  Js.add (Js.add (Js.add (Js.add (Js.add (Js.add (Js.add (Js.add
    (rd (i - w - 1)) (rd (i - w))) (rd (i - w + 1)))
    (rd (i - 1))) (rd i)) (rd (i + 1)))
    (rd (i + w - 1))) (rd (i + w))) (rd (i + w + 1)).

Definition discardOutliers (this : GreyscaleImage) (outlierThreshold : Js.number) : GreyscaleImage :=
  let w := width this in
  set_data this
    (for_loop (length (data this))
       (fun i d =>
          store d i
            (if Js.ge (neighbourSum d w (Z.of_nat i))
                      (Js.mul outlierThreshold (Js.of_Z 255))
             then Js.of_Z 255 else Js.of_Z 0))
       (data this)).

(** ** class TransitionCountingImage extends GreyscaleImage

    The inherited channel [data] holds the count of transitions. *)

Record TransitionCountingImage : Type := mkTransitionCountingImage {
  base : GreyscaleImage;
  nextExpected : Uint8ClampedArray;
  txTimer : Uint8ClampedArray
}.

(** [new TransitionCountingImage()] *)
Definition new_TransitionCountingImage : TransitionCountingImage :=
  {| base := new_GreyscaleImage; nextExpected := new_array 0; txTimer := new_array 0 |}.

Definition set_count (this : TransitionCountingImage) (i : nat) (v : Js.number) : TransitionCountingImage :=
  {| base := set_data (base this) (store (data (base this)) i v);
     nextExpected := nextExpected this; txTimer := txTimer this |}.

Definition set_nextExpected (this : TransitionCountingImage) (i : nat) (v : Js.number) : TransitionCountingImage :=
  {| base := base this; nextExpected := store (nextExpected this) i v; txTimer := txTimer this |}.

Definition set_txTimer (this : TransitionCountingImage) (i : nat) (v : Js.number) : TransitionCountingImage :=
  {| base := base this; nextExpected := nextExpected this; txTimer := store (txTimer this) i v |}.

(** The dimension check at the head of [update]. *)
Definition update_resize (this : TransitionCountingImage) (source : GreyscaleImage) : TransitionCountingImage :=
  if negb (width source =? width (base this)) || negb (height source =? height (base this))
  then
    let b := _setSize (base this) (width source) (height source) in
    {| base := b;
       nextExpected := new_array (Z.of_nat (length (data b)));
       txTimer := new_array (Z.of_nat (length (data b))) |}
  else this.

(** One iteration of the loop of [update]. *)
Definition update_pixel (source : GreyscaleImage) (maxInterval : Js.number)
    (i : nat) (this : TransitionCountingImage) : TransitionCountingImage :=
  let k := Z.of_nat i in
  let srcPixel := load (data source) k in
  let count := load (data (base this)) k in
  if Js.loose_eq count (Some 0) then
    if Js.loose_eq srcPixel (Some 0) then
      set_txTimer (set_nextExpected (set_count this i (Js.of_Z 1)) i (Js.of_Z 255)) i (Js.of_Z 0)
    else if Js.loose_eq srcPixel (Some 255) then
      set_txTimer (set_nextExpected (set_count this i (Js.of_Z 1)) i (Js.of_Z 0)) i (Js.of_Z 0)
    else this
  else
    let this := set_txTimer this i (Js.add (Js.of_read (load (txTimer this) k)) (Js.of_Z 1)) in
    if Js.gt (Js.of_read (load (txTimer this) k)) maxInterval then
      set_count this i (Js.of_Z 0)
    else if Js.loose_eq srcPixel (load (nextExpected this) k) then
      let this := set_count this i (Js.add (Js.of_read (load (data (base this)) k)) (Js.of_Z 1)) in
      let this := set_nextExpected this i
                    (Js.sub (Js.of_Z 255) (Js.of_read (load (nextExpected this) k))) in
      set_txTimer this i (Js.of_Z 0)
    else this.

Definition update (this : TransitionCountingImage) (source : GreyscaleImage)
    (maxInterval : Js.number) : TransitionCountingImage :=
  let this := update_resize this source in
  for_loop (length (data (base this))) (update_pixel source maxInterval) this.

(** The default value of [maxInterval]. *)
Definition update_default (this : TransitionCountingImage) (source : GreyscaleImage) : TransitionCountingImage :=
  update this source (Js.of_Z 10).

(** ** Objects and references

    The images are objects: a variable holds a reference, and a method
    assigns to the fields of the object [this] refers to.  The heap lists
    the objects in allocation order, a reference being the rank of its
    object. *)

Inductive object : Type :=
| Grey (g : GreyscaleImage)
| Counter (t : TransitionCountingImage).

Abbreviation heap := (list object).
Abbreviation ref := nat.

(** The [GreyscaleImage] fields of an object, own or inherited. *)
Definition image_of (o : object) : GreyscaleImage :=
  match o with
  | Grey g => g
  | Counter t => base t
  end.

Definition with_image (o : object) (g : GreyscaleImage) : object :=
  match o with
  | Grey _ => Grey g
  | Counter t =>
      Counter {| base := g; nextExpected := nextExpected t; txTimer := txTimer t |}
  end.

(** [new C()] *)
Definition alloc (o : object) (h : heap) : heap * ref := (h ++ [o], length h).

(** [this.m()] and [this.m(other)] for the methods of [GreyscaleImage]: the
    object at [this] is replaced by the method's result, nothing else is
    written, as every assignment of the class is to a field of [this].
    When [other] is [this] itself the result is still the method's: each
    loop reads cell [i] of [other] in iteration [i], before its only write
    to cell [i].  (A dangling reference cannot arise; the heap is then
    kept.) *)
Definition invoke (m : GreyscaleImage -> GreyscaleImage) (this : ref) (h : heap) : heap :=
  match h !! this with
  | Some o => <[this := with_image o (m (image_of o))]> h
  | None => h
  end.

Definition invoke_with (m : GreyscaleImage -> GreyscaleImage -> GreyscaleImage)
    (this other : ref) (h : heap) : heap :=
  match h !! this, h !! other with
  | Some o, Some a => <[this := with_image o (m (image_of o) (image_of a))]> h
  | _, _ => h
  end.

(** [this.update(source, maxInterval)] *)
Definition invoke_update (this source : ref) (maxInterval : Js.number) (h : heap) : heap :=
  match h !! this, h !! source with
  | Some (Counter t), Some a => <[this := Counter (update t (image_of a) maxInterval)]> h
  | _, _ => h
  end.

(** [this.pixelSum()] *)
Definition invoke_pixelSum (this : ref) (h : heap) : Z :=
  match h !! this with
  | Some o => pixelSum (image_of o)
  | None => 0
  end.

(** ** The tick installed by [onload]

    [CameraInput.getGreyscaleImage] draws the video on its canvas (outside
    the program) and reads a new [GreyscaleImage] from it; the canvas after
    the draw is the tick's input.  [debugDraw] only reads [this] and paints
    a canvas of the page, and the verdict goes to the page as text: the
    model returns the verdict and leaves the painting out. *)

Definition getGreyscaleImage (ctx : CanvasRenderingContext2D) (h : heap) : heap * ref :=
  let '(h, image) := alloc (Grey new_GreyscaleImage) h in
  (invoke (fun this => read this ctx) image h, image).

(** The four sliders of the page, read with [valueAsNumber]. *)
Record Sliders : Type := mkSliders {
  contrastFactor : Js.number;
  maxInterval : Js.number;
  transitionCount : Js.number;
  outlierThreshold : Js.number
}.

(** The variables captured by the tick's closure. *)
Record Closure : Type := mkClosure {
  cameraImage : option ref;
  prevCameraImage : option ref;
  diffImage : ref;
  highContrastDiffImage : ref;
  stateImage : ref;
  waveMap : ref;
  filteredWaveMap : ref
}.

(** The state [onload] builds before the first tick. *)
Definition onload : Closure * heap :=
  let h := [] in
  let '(h, diffImage) := alloc (Grey new_GreyscaleImage) h in
  let '(h, highContrastDiffImage) := alloc (Grey new_GreyscaleImage) h in
  let '(h, stateImage) := alloc (Counter new_TransitionCountingImage) h in
  let '(h, waveMap) := alloc (Grey new_GreyscaleImage) h in
  let '(h, filteredWaveMap) := alloc (Grey new_GreyscaleImage) h in
  ({| cameraImage := None;
      prevCameraImage := None;
      diffImage := diffImage;
      highContrastDiffImage := highContrastDiffImage;
      stateImage := stateImage;
      waveMap := waveMap;
      filteredWaveMap := filteredWaveMap |}, h).

(** One tick; the verdict is [None] when the guarded block is skipped. *)
Definition tick (p : Sliders) (ctx : CanvasRenderingContext2D) (s : Closure * heap)
    : (Closure * heap) * option bool :=
  let '(v, h) := s in
  let prev := cameraImage v in
  let '(h, camera) := getGreyscaleImage ctx h in
  let v := {| cameraImage := Some camera;
              prevCameraImage := prev;
              diffImage := diffImage v;
              highContrastDiffImage := highContrastDiffImage v;
              stateImage := stateImage v;
              waveMap := waveMap v;
              filteredWaveMap := filteredWaveMap v |} in
  match prev with
  | Some prevCamera =>
      let h := invoke_with updateFrom (diffImage v) camera h in
      let h := invoke_with subtract (diffImage v) prevCamera h in
      let h := invoke_with updateFrom (highContrastDiffImage v) (diffImage v) h in
      let h := invoke (fun this => increaseContrast this (contrastFactor p))
                 (highContrastDiffImage v) h in
      let h := invoke_update (stateImage v) (highContrastDiffImage v) (maxInterval p) h in
      let h := invoke_with updateFrom (waveMap v) (stateImage v) h in
      let h := invoke (fun this => toBinary this (transitionCount p)) (waveMap v) h in
      let h := invoke_with updateFrom (filteredWaveMap v) (waveMap v) h in
      let h := invoke (fun this => discardOutliers this (outlierThreshold p)) (waveMap v) h in
      ((v, h), Some (0 <? invoke_pixelSum (waveMap v) h))
  | None => ((v, h), None)
  end.

(** The states the page goes through. *)
Inductive reachable : Closure * heap -> Prop :=
| reachable_onload : reachable onload
| reachable_tick (p : Sliders) (ctx : CanvasRenderingContext2D) (s : Closure * heap) :
    reachable s -> reachable (fst (tick p ctx s)).

(** The contents of the five working buffers. *)
Definition buffers (s : Closure * heap) : list (option object) :=
  let '(v, h) := s in
  [h !! diffImage v; h !! highContrastDiffImage v; h !! stateImage v;
   h !! waveMap v; h !! filteredWaveMap v].

(** ** Invariants, the state machine of a pixel and sample inputs

    What the properties below are stated with. *)

(** The bytes of a typed array. *)
Definition bytes (a : Uint8ClampedArray) : Prop := Forall (fun v => 0 <= v <= 255) a.

(** The class invariant: the buffer has one cell per pixel. *)
Definition well_sized (g : GreyscaleImage) : Prop :=
  length (data g) = Z.to_nat (width g * height g).

(** An all-zero frame of the given dimensions. *)
Definition zeroFrame (w h : Z) : GreyscaleImage :=
  {| data := new_array (w * h); width := w; height := h |}.

(** Clamping of an integer to a byte. *)
Definition clamp (z : Z) : Z := Z.max 0 (Z.min 255 z).

(** The state machine of one pixel: [update] seen at a single index, the
    state being (count, nextExpected, txTimer). *)
Definition pixel_step (srcPixel : option Z) (maxInterval : Js.number)
    (st : Z * Z * Z) : Z * Z * Z :=
  let '(count, expected, timer) := st in
  if count =? 0 then
    if Js.loose_eq srcPixel (Some 0) then (1, 255, 0)
    else if Js.loose_eq srcPixel (Some 255) then (1, 0, 0)
    else st
  else
    let timer' := clamp (timer + 1) in
    if Js.gt (Js.of_Z timer') maxInterval then (0, expected, timer')
    else if Js.loose_eq srcPixel (Some expected)
         then (clamp (count + 1), clamp (255 - expected), 0)
         else (count, expected, timer').

(** The three cells of pixel [i]. *)
Definition pixel (t : TransitionCountingImage) (i : nat) : option Z * option Z * option Z :=
  (data (base t) !! i, nextExpected t !! i, txTimer t !! i).

Definition defined (st : Z * Z * Z) : option Z * option Z * option Z :=
  let '(count, expected, timer) := st in (Some count, Some expected, Some timer).

(** A sequence of calls of [update], each with its source and maxInterval. *)
Definition updates (t : TransitionCountingImage) (calls : list (GreyscaleImage * Js.number))
    : TransitionCountingImage :=
  fold_left (fun t c => update t (fst c) (snd c)) calls t.

Definition pixel_run (st : Z * Z * Z) (inputs : list (option Z * Js.number)) : Z * Z * Z :=
  fold_left (fun st c => pixel_step (fst c) (snd c) st) inputs st.

Definition same_dims (w h : Z) (s : GreyscaleImage) : Prop :=
  width s = w /\ height s = h.

(** A call with a long interval: a source of the given dimensions and a
    maxInterval of at least 255. *)
Definition long_interval_call (w h : Z) (call : GreyscaleImage * Js.number) : Prop :=
  same_dims w h (fst call) /\ exists q, snd call = Js.Fin q /\ (255 <= q)%Q.

(** The invariant of the counter: three arrays of one length, holding
    bytes, [nextExpected] holding nothing but 0 and 255. *)
Record counter_ok (t : TransitionCountingImage) : Prop := {
  ok_sized : well_sized (base t);
  ok_count : bytes (data (base t));
  ok_expected : Forall (fun e => e = 0 \/ e = 255) (nextExpected t);
  ok_timer : bytes (txTimer t);
  ok_expected_length : length (nextExpected t) = length (data (base t));
  ok_timer_length : length (txTimer t) = length (data (base t))
}.

(** The invariant of the page: the five buffers sit at references 0 to 4 and
    are well sized, the current frame is an object allocated after them. *)
Definition tick_inv (s : Closure * heap) : Prop :=
  exists cam before d0 d1 t d3 d4 rest,
    s = (mkClosure cam before 0%nat 1%nat 2%nat 3%nat 4%nat,
         Grey d0 :: Grey d1 :: Counter t :: Grey d3 :: Grey d4 :: rest) /\
    well_sized d0 /\ well_sized d1 /\ counter_ok t /\ well_sized d3 /\ well_sized d4 /\
    (forall r, cam = Some r -> exists k o, r = (5 + k)%nat /\ rest !! k = Some o).

(** A frame of a single pixel. *)
Definition pixel_frame (v : Z) : GreyscaleImage := mkGreyscaleImage [v] 1 1.

(** A canvas of two pixels and a setting of the sliders. *)
Definition example_canvas (v : Z) : CanvasRenderingContext2D :=
  mkContext 2 1 [v; v; v; 255; 0; 0; 0; 255].

Definition example_sliders : Sliders :=
  mkSliders (Js.of_Z 10) (Js.of_Z 10) (Js.of_Z 1) (Js.Fin (1 # 2)).

(** Equations between rationals built from integers. *)
Ltac Qint :=
  unfold Qeq, Qminus, Qplus, Qmult, Qopp, inject_Z; cbn [Qnum Qden]; lia.

(** ** debugDraw

    The bytes [debugDraw] hands to [putImageData], as the canvas it leaves:
    the canvas takes the image's size and [createImageData] gives four zero
    bytes per pixel.  [levelMap] is an object from sample values to arrays
    of numbers, [null] standing for none; the result is [None] when the
    method throws: [createImageData] refuses an empty area, and reading
    [pixel[0]] fails when the level is missing and [defaultLevel] is
    [null]. *)

Definition LevelMap : Type := Z -> option (list Z).

(** The four writes of one pixel, alpha last. *)
Definition paint (target : Uint8ClampedArray) (i : nat) (r g b : Js.number)
    : Uint8ClampedArray :=
  store (store (store (store target (i * 4) r) (i * 4 + 1) g) (i * 4 + 2) b)
        (i * 4 + 3) (Js.of_Z 255).

(** [levelMap[this.data[i]] || defaultLevel] *)
Definition level_of (levelMap : LevelMap) (defaultLevel : option (list Z))
    (sample : option Z) : option (list Z) :=
  match sample with
  | Some v =>
      match levelMap v with
      | Some px => Some px
      | None => defaultLevel
      end
  | None => defaultLevel
  end.

Definition debugDraw (this : GreyscaleImage) (levelMap : option LevelMap)
    (defaultLevel : option (list Z)) : option CanvasRenderingContext2D :=
  if (width this =? 0) || (height this =? 0) then None
  else
    let targetRGBA := new_array (4 * (width this * height this)) in
    let drawn :=
      match levelMap with
      | Some lm =>
          for_loop (length (data this))
            (fun i acc =>
               match acc with
               | Some target =>
                   match level_of lm defaultLevel (load (data this) (Z.of_nat i)) with
                   | Some px =>
                       Some (paint target i (Js.of_read (px !! 0%nat))
                               (Js.of_read (px !! 1%nat)) (Js.of_read (px !! 2%nat)))
                   | None => None
                   end
               | None => None
               end)
            (Some targetRGBA)
      | None =>
          Some (for_loop (length (data this))
                  (fun i target =>
                     let v := Js.of_read (load (data this) (Z.of_nat i)) in
                     paint target i v v v)
                  targetRGBA)
      end in
    match drawn with
    | Some target =>
        Some {| canvas_width := width this; canvas_height := height this;
                imageData := target |}
    | None => None
    end.

(** ** Runs of the tick *)

(** Successive ticks in front of one canvas, each with its sliders. *)
Definition ticks (ctx : CanvasRenderingContext2D) (ps : list Sliders)
    (s : Closure * heap) : Closure * heap :=
  fold_left (fun s p => fst (tick p ctx s)) ps s.

(** Sliders in their working range: a finite contrast factor, a transition
    count of at least 1 and a positive outlier threshold. *)
Definition calm (p : Sliders) : Prop :=
  (exists f, contrastFactor p = Js.Fin f) /\
  (exists q, transitionCount p = Js.Fin q /\ (1 <= q)%Q) /\
  (exists r, outlierThreshold p = Js.Fin r /\ (0 < r)%Q).

(** What holds between the ticks of a still scene: the buffers are well
    sized, the counter is Idle everywhere and the current frame is the image
    of the canvas. *)
Definition still_inv (ctx : CanvasRenderingContext2D) (s : Closure * heap) : Prop :=
  exists cam before d0 d1 t d3 d4 rest,
    s = (mkClosure cam before 0%nat 1%nat 2%nat 3%nat 4%nat,
         Grey d0 :: Grey d1 :: Counter t :: Grey d3 :: Grey d4 :: rest) /\
    well_sized d0 /\ well_sized d1 /\ counter_ok t /\ well_sized d3 /\ well_sized d4 /\
    Forall (fun c => c = 0) (data (base t)) /\
    (forall r, cam = Some r ->
       exists k, r = (5 + k)%nat /\
                 rest !! k = Some (Grey (read new_GreyscaleImage ctx))).

(** Inequalities between rationals, brought down to the integers. *)
Ltac Qraw :=
  unfold Qminus in *; unfold Qle, Qeq, Qplus, Qmult, Qopp, inject_Z in *;
  cbn [Qnum Qden] in *;
  rewrite ?Pos.mul_1_l, ?Pos.mul_1_r, ?Z.mul_1_r in *.

(** * Properties *)

(** ** The array conversion *)

Lemma Qlt_bool_iff (x y : Q) : Js.Qlt_bool x y = true <-> (x < y)%Q.
Proof.
  unfold Js.Qlt_bool. rewrite negb_true_iff.
  split.
  - intros H. apply Qnot_le_lt. intros Hle.
    apply Qle_bool_iff in Hle. congruence.
  - intros H. destruct (Qle_bool y x) eqn:E; [|reflexivity].
    apply Qle_bool_iff in E. exfalso. exact (Qlt_not_le _ _ H E).
Qed.

Lemma Qlt_bool_false (x y : Q) : (y <= x)%Q -> Js.Qlt_bool x y = false.
Proof.
  intros H. unfold Js.Qlt_bool. apply negb_false_iff. now apply Qle_bool_iff.
Qed.

Lemma Qle_bool_false (x y : Q) : (y < x)%Q -> Qle_bool x y = false.
Proof.
  intros H. destruct (Qle_bool x y) eqn:E; [|reflexivity].
  apply Qle_bool_iff in E. exfalso. exact (Qlt_not_le _ _ H E).
Qed.

Lemma to_uint8_clamp_range (a : Js.number) : 0 <= Js.to_uint8_clamp a <= 255.
Proof.
  destruct a as [|q]; simpl; [lia|].
  destruct (Qle_bool q 0) eqn:E0; [lia|].
  destruct (Qle_bool 255 q) eqn:E1; [lia|].
  assert (H0 : (0 < q)%Q).
  { apply Qnot_le_lt. intros H. apply Qle_bool_iff in H. congruence. }
  assert (H1 : (q < 255)%Q).
  { apply Qnot_le_lt. intros H. apply Qle_bool_iff in H. congruence. }
  assert (Hf0 : 0 <= Qfloor q).
  { change 0 with (Qfloor (inject_Z 0)) at 1. apply Qfloor_resp_le.
    now apply Qlt_le_weak. }
  assert (Hf1 : Qfloor q < 255).
  { destruct (Z_lt_le_dec (Qfloor q) 255) as [|Hge]; [assumption|].
    exfalso. apply (Qlt_not_le _ _ H1).
    apply Qle_trans with (inject_Z (Qfloor q)); [|apply Qfloor_le].
    change 255%Q with (inject_Z 255). now rewrite <- Zle_Qle. }
  repeat match goal with |- context [if ?b then _ else _] => destruct b end; lia.
Qed.

(** The conversion sees the value of the rational, not its representation. *)
Lemma to_uint8_clamp_Qeq (q q' : Q) :
  (q == q')%Q -> Js.to_uint8_clamp (Js.Fin q) = Js.to_uint8_clamp (Js.Fin q').
Proof.
  intros H. unfold Js.to_uint8_clamp, Js.Qlt_bool.
  rewrite (Qfloor_comp _ _ H).
  rewrite (Qleb_comp _ _ H 0%Q 0%Q (Qeq_refl _)).
  rewrite (Qleb_comp 255%Q 255%Q (Qeq_refl _) _ _ H).
  set (half := (inject_Z (Qfloor q') + (1 # 2))%Q).
  rewrite (Qleb_comp _ _ H half half (Qeq_refl _)).
  rewrite (Qleb_comp half half (Qeq_refl _) _ _ H).
  reflexivity.
Qed.

(** An integer is clamped and otherwise kept. *)
Lemma to_uint8_clamp_Z (z : Z) :
  Js.to_uint8_clamp (Js.of_Z z) = Z.max 0 (Z.min 255 z).
Proof.
  unfold Js.of_Z, Js.to_uint8_clamp.
  destruct (Qle_bool (inject_Z z) 0) eqn:E0.
  { apply Qle_bool_iff in E0. change 0%Q with (inject_Z 0) in E0.
    rewrite <- Zle_Qle in E0. lia. }
  assert (H0 : 0 < z).
  { destruct (Z_lt_le_dec 0 z) as [|Hle]; [assumption|].
    exfalso. assert (Qle_bool (inject_Z z) 0 = true); [|congruence].
    apply Qle_bool_iff. change 0%Q with (inject_Z 0). now rewrite <- Zle_Qle. }
  destruct (Qle_bool 255 (inject_Z z)) eqn:E1.
  { apply Qle_bool_iff in E1. change 255%Q with (inject_Z 255) in E1.
    rewrite <- Zle_Qle in E1. lia. }
  assert (H1 : z < 255).
  { destruct (Z_lt_le_dec z 255) as [|Hle]; [assumption|].
    exfalso. assert (Qle_bool 255 (inject_Z z) = true); [|congruence].
    apply Qle_bool_iff. change 255%Q with (inject_Z 255). now rewrite <- Zle_Qle. }
  rewrite Qfloor_Z.
  assert (Hh : (inject_Z z < inject_Z z + (1 # 2))%Q).
  { rewrite <- (Qplus_0_r (inject_Z z)) at 1.
    apply Qplus_lt_r. reflexivity. }
  rewrite (Qlt_bool_false _ _ (Qlt_le_weak _ _ Hh)).
  apply Qlt_bool_iff in Hh. rewrite Hh. lia.
Qed.

Lemma to_uint8_clamp_of_Qeq_Z (q : Q) (z : Z) :
  (q == inject_Z z)%Q -> Js.to_uint8_clamp (Js.Fin q) = Z.max 0 (Z.min 255 z).
Proof.
  intros H. rewrite (to_uint8_clamp_Qeq _ _ H). apply to_uint8_clamp_Z.
Qed.

(** ** Loops and arrays *)

Section ForLoop.
Context {S : Type} (body : nat -> S -> S).

Lemma for_loop_S (n : nat) (s : S) :
  for_loop (Datatypes.S n) body s = body n (for_loop n body s).
Proof.
  unfold for_loop. rewrite seq_S, fold_left_app. reflexivity.
Qed.

(** A property kept by every iteration holds after the loop. *)
Lemma for_loop_inv (P : S -> Prop) (n : nat) (s : S) :
  P s ->
  (forall i s', (i < n)%nat -> P s' -> P (body i s')) ->
  P (for_loop n body s).
Proof.
  intros H0 Hstep. induction n as [|n IH]; [exact H0|].
  rewrite for_loop_S. apply Hstep; [lia|].
  apply IH. intros i s' Hi. apply Hstep. lia.
Qed.

(** Iteration [i] only changes what is seen at index [i]. *)
Context {V : Type} (view : S -> nat -> V).
Hypothesis body_frame :
  forall i s j, i <> j -> view (body i s) j = view s j.

Lemma for_loop_untouched (n : nat) (s : S) (j : nat) :
  (n <= j)%nat -> view (for_loop n body s) j = view s j.
Proof.
  induction n as [|n IH]; intros Hj; [reflexivity|].
  rewrite for_loop_S, body_frame by lia. apply IH. lia.
Qed.

Lemma for_loop_done (n : nat) (s : S) (i : nat) :
  (i < n)%nat ->
  view (for_loop n body s) i = view (body i (for_loop i body s)) i.
Proof.
  induction n as [|n IH]; intros Hi; [lia|].
  rewrite for_loop_S.
  destruct (decide (i = n)) as [->|Hne]; [reflexivity|].
  rewrite body_frame by lia. apply IH. lia.
Qed.
End ForLoop.

Lemma load_of_nat (a : Uint8ClampedArray) (i : nat) : load a (Z.of_nat i) = a !! i.
Proof.
  unfold load. destruct (Z.ltb_spec (Z.of_nat i) 0); [lia|].
  now rewrite Nat2Z.id.
Qed.

Lemma load_negative (a : Uint8ClampedArray) (k : Z) : k < 0 -> load a k = None.
Proof.
  intros H. unfold load. destruct (Z.ltb_spec k 0); [reflexivity|lia].
Qed.

Lemma load_beyond (a : Uint8ClampedArray) (k : Z) :
  Z.of_nat (length a) <= k -> load a k = None.
Proof.
  intros H. unfold load. destruct (Z.ltb_spec k 0); [reflexivity|].
  apply lookup_ge_None. lia.
Qed.

Lemma load_inside (a : Uint8ClampedArray) (k : Z) :
  0 <= k < Z.of_nat (length a) -> exists v, load a k = Some v.
Proof.
  intros H. unfold load. destruct (Z.ltb_spec k 0); [lia|].
  destruct (lookup_lt_is_Some_2 a (Z.to_nat k)) as [v Hv]; [lia|]. eauto.
Qed.

Lemma length_store (a : Uint8ClampedArray) (i : nat) (v : Js.number) :
  length (store a i v) = length a.
Proof. apply length_insert. Qed.

Lemma store_lookup_ne (a : Uint8ClampedArray) (i j : nat) (v : Js.number) :
  i <> j -> store a i v !! j = a !! j.
Proof. intros H. now apply list_lookup_insert_ne. Qed.

Lemma store_lookup_eq (a : Uint8ClampedArray) (i : nat) (v : Js.number) :
  (i < length a)%nat -> store a i v !! i = Some (Js.to_uint8_clamp v).
Proof. intros H. now apply list_lookup_insert_eq. Qed.

Lemma bytes_store (a : Uint8ClampedArray) (i : nat) (v : Js.number) :
  bytes a -> bytes (store a i v).
Proof.
  intros H. unfold store.
  destruct (decide (i < length a)%nat) as [Hi|Hi].
  - apply Forall_insert; [assumption|apply to_uint8_clamp_range].
  - rewrite list_insert_ge by lia. assumption.
Qed.

Lemma bytes_lookup (a : Uint8ClampedArray) (i : nat) (v : Z) :
  bytes a -> a !! i = Some v -> 0 <= v <= 255.
Proof. intros H Hi. exact (proj1 (Forall_lookup _ a) H i v Hi). Qed.

Lemma bytes_new_array (n : Z) : bytes (new_array n).
Proof. apply Forall_replicate. lia. Qed.

Lemma length_new_array (n : Z) : length (new_array n) = Z.to_nat n.
Proof. apply length_replicate. Qed.

(** A loop whose iteration [i] is the single write [d[i] = g i d]. *)
Section StoreLoop.
Variable g : nat -> Uint8ClampedArray -> Js.number.
Let body (i : nat) (d : Uint8ClampedArray) := store d i (g i d).

Lemma store_loop_length (n : nat) (d : Uint8ClampedArray) :
  length (for_loop n body d) = length d.
Proof.
  apply (for_loop_inv body (fun d' => length d' = length d)); [reflexivity|].
  intros i d' _ H. unfold body. now rewrite length_store.
Qed.

Lemma store_loop_bytes (n : nat) (d : Uint8ClampedArray) :
  bytes d -> bytes (for_loop n body d).
Proof.
  intros H. apply (for_loop_inv body bytes); [assumption|].
  intros i d' _ H'. now apply bytes_store.
Qed.

(** Before iteration [i] the cells from [i] on still hold the input. *)
Lemma store_loop_untouched (n : nat) (d : Uint8ClampedArray) (j : nat) :
  (n <= j)%nat -> for_loop n body d !! j = d !! j.
Proof.
  apply (for_loop_untouched body (fun d' k => d' !! k)).
  intros i s k H. now apply store_lookup_ne.
Qed.

(** Cell [i] of the result is what iteration [i] wrote. *)
Lemma store_loop_done (n : nat) (d : Uint8ClampedArray) (i : nat) :
  (i < n)%nat -> (i < length d)%nat ->
  for_loop n body d !! i = Some (Js.to_uint8_clamp (g i (for_loop i body d))).
Proof.
  intros Hi Hlen.
  rewrite (for_loop_done body (fun d' k => d' !! k)); [|
    intros k s j H; now apply store_lookup_ne | assumption].
  unfold body at 1. apply store_lookup_eq. now rewrite store_loop_length.
Qed.
End StoreLoop.

(** ** GreyscaleImage *)

Lemma _setSize_spec (this : GreyscaleImage) (w h : Z) :
  well_sized this ->
  well_sized (_setSize this w h) /\
  width (_setSize this w h) = w /\ height (_setSize this w h) = h.
Proof.
  intros Hws. unfold _setSize.
  destruct (Z.eqb_spec w (width this)) as [->|Hw];
    destruct (Z.eqb_spec h (height this)) as [->|Hh]; simpl;
    repeat split; try assumption; unfold well_sized; simpl;
    apply length_new_array.
Qed.

(** A third of a sum of three bytes, stored in a clamped array, is the
    nearest integer: the fractional part is 0, 1/3 or 2/3, never a tie. *)
Lemma to_uint8_clamp_third (s : Z) :
  0 <= s <= 765 -> Js.to_uint8_clamp (Js.Fin (s # 3)) = (s + 1) / 3.
Proof.
  intros Hs.
  pose proof (Z_div_mod_eq_full s 3) as Hd.
  pose proof (Z.mod_pos_bound s 3 ltac:(lia)) as Hm.
  pose proof (Z_div_mod_eq_full (s + 1) 3) as Hd1.
  pose proof (Z.mod_pos_bound (s + 1) 3 ltac:(lia)) as Hm1.
  unfold Js.to_uint8_clamp, Js.Qlt_bool, Qle_bool, Qfloor, Qplus, inject_Z.
  cbn [Qnum Qden].
  repeat match goal with
         | |- context [Z.leb ?a ?b] => destruct (Z.leb_spec a b)
         end; cbn [negb];
    try match goal with |- context [Z.even ?a] => destruct (Z.even a) end;
    lia.
Qed.

Lemma average_rounds (r g b : Z) :
  0 <= r <= 255 -> 0 <= g <= 255 -> 0 <= b <= 255 ->
  Js.to_uint8_clamp
    (Js.div_pos (Js.add (Js.add (Js.of_Z r) (Js.of_Z g)) (Js.of_Z b)) 3)
  = (r + g + b + 1) / 3.
Proof.
  intros Hr Hg Hb. unfold Js.of_Z, Js.add, Js.div_pos.
  rewrite (to_uint8_clamp_Qeq _ ((r + g + b) # 3)).
  - apply to_uint8_clamp_third. lia.
  - rewrite <- !inject_Z_plus. unfold Qdiv, Qinv, inject_Z, Qmult, Qeq. simpl. lia.
Qed.

(** C6 (as stated, refuted): the sample is not the floor of the average.
    For the one-pixel canvas R=1, G=1, B=0 the quotient 2/3 is stored as 1,
    where the floor is 0. *)
Lemma read_is_not_floor :
  data (read new_GreyscaleImage
          {| canvas_width := 1; canvas_height := 1; imageData := [1; 1; 0; 255] |})
    !! 0%nat
  <> Some ((1 + 1 + 0) / 3).
Proof. vm_compute. discriminate. Qed.

(** C6 (amended): [read] sets every sample to the average of the pixel's red,
    green and blue bytes rounded to the NEAREST integer, that is
    floor((R+G+B+1)/3); the alpha byte is not read. *)
Theorem read_average_nearest (this : GreyscaleImage) (ctx : CanvasRenderingContext2D)
    (i : nat) (r g b : Z) :
  well_sized this ->
  Z.of_nat i < canvas_width ctx * canvas_height ctx ->
  imageData ctx !! (i * 4)%nat = Some r ->
  imageData ctx !! (i * 4 + 1)%nat = Some g ->
  imageData ctx !! (i * 4 + 2)%nat = Some b ->
  0 <= r <= 255 -> 0 <= g <= 255 -> 0 <= b <= 255 ->
  data (read this ctx) !! i = Some ((r + g + b + 1) / 3).
Proof.
  intros Hws Hi Hr Hg Hb Br Bg Bb. unfold read.
  destruct (_setSize_spec this (canvas_width ctx) (canvas_height ctx) Hws)
    as (Hws' & Hw & Hh).
  set (this' := _setSize this (canvas_width ctx) (canvas_height ctx)) in *.
  assert (Hlen : (i < length (data this'))%nat).
  { rewrite Hws', Hw, Hh. lia. }
  cbn [data set_data].
  rewrite store_loop_done by assumption.
  f_equal.
  replace (Z.of_nat i * 4) with (Z.of_nat (i * 4)) by lia.
  replace (Z.of_nat (i * 4) + 1) with (Z.of_nat (i * 4 + 1)) by lia.
  replace (Z.of_nat (i * 4) + 2) with (Z.of_nat (i * 4 + 2)) by lia.
  rewrite !load_of_nat, Hr, Hg, Hb. cbn [Js.of_read].
  now apply average_rounds.
Qed.

Lemma read_average_nearest_witness :
  data (read new_GreyscaleImage
          {| canvas_width := 2; canvas_height := 1;
             imageData := [1; 1; 0; 255; 200; 100; 51; 7] |})
    !! 1%nat
  = Some ((200 + 100 + 51 + 1) / 3).
Proof.
  apply (read_average_nearest new_GreyscaleImage
           {| canvas_width := 2; canvas_height := 1;
              imageData := [1; 1; 0; 255; 200; 100; 51; 7] |}
           1%nat 200 100 51);
    first [reflexivity | simpl; lia | lia].
Defined.

Lemma subtract_lookup (this other : GreyscaleImage) (i : nat) (a b : Z) :
  data this !! i = Some a ->
  data other !! i = Some b ->
  data (subtract this other) !! i = Some (Z.max 0 (Z.min 255 (a - b + 128))).
Proof.
  intros Ha Hb. unfold subtract. cbn [data set_data].
  pose proof (lookup_lt_Some _ _ _ Ha) as Hlen.
  rewrite store_loop_done by assumption.
  rewrite load_of_nat, store_loop_untouched, load_of_nat, Ha, Hb by lia.
  f_equal. cbn [Js.of_read Js.of_Z Js.sub Js.add].
  apply to_uint8_clamp_of_Qeq_Z. Qint.
Qed.

(** C5 (as stated, refuted): subtracting the zero frame changes the result.
    With A = B = [0] the difference is [128], and subtracting the zero frame
    from it gives [255]. *)
Lemma subtract_zero_changes :
  data (subtract (subtract (mkGreyscaleImage [0] 1 1) (mkGreyscaleImage [0] 1 1))
                 (zeroFrame 1 1))
  <> data (subtract (mkGreyscaleImage [0] 1 1) (mkGreyscaleImage [0] 1 1)).
Proof. vm_compute. discriminate. Qed.

(** C5 (amended): for frames A and B of equal dimensions and result =
    subtract(A, B), subtract(result, zeroFrame) replaces every sample r of
    result by min(255, r + 128); it leaves exactly the samples equal to 255
    unchanged. *)
Theorem subtract_zero_adds_128 (A B : GreyscaleImage) (i : nat) :
  well_sized A -> well_sized B ->
  width A = width B -> height A = height B ->
  (i < length (data A))%nat ->
  let result := subtract A B in
  let again := subtract result (zeroFrame (width A) (height A)) in
  exists r,
    data result !! i = Some r /\
    data again !! i = Some (Z.min 255 (r + 128)) /\
    (data again !! i = data result !! i <-> r = 255).
Proof.
  intros HA HB Hw Hh Hi result again.
  destruct (lookup_lt_is_Some_2 (data A) i Hi) as [a Ha].
  destruct (lookup_lt_is_Some_2 (data B) i) as [b Hb].
  { rewrite HB, <- Hw, <- Hh, <- HA. exact Hi. }
  pose proof (subtract_lookup A B i a b Ha Hb) as Hr.
  fold result in Hr.
  set (r := Z.max 0 (Z.min 255 (a - b + 128))) in *.
  assert (Hz : data (zeroFrame (width A) (height A)) !! i = Some 0).
  { unfold zeroFrame, new_array. cbn [data].
    apply lookup_replicate_2. rewrite <- HA. exact Hi. }
  pose proof (subtract_lookup result _ i r 0 Hr Hz) as Hagain.
  fold again in Hagain.
  exists r. rewrite Hagain, Hr. repeat split; try (f_equal; lia).
  - intros H. injection H. lia.
  - intros ->. reflexivity.
Qed.

Lemma subtract_zero_adds_128_witness :
  exists r,
    data (subtract (mkGreyscaleImage [10; 200] 2 1) (mkGreyscaleImage [30; 5] 2 1))
      !! 0%nat = Some r /\
    data (subtract
            (subtract (mkGreyscaleImage [10; 200] 2 1) (mkGreyscaleImage [30; 5] 2 1))
            (zeroFrame 2 1))
      !! 0%nat = Some (Z.min 255 (r + 128)) /\
    (data (subtract
             (subtract (mkGreyscaleImage [10; 200] 2 1) (mkGreyscaleImage [30; 5] 2 1))
             (zeroFrame 2 1))
       !! 0%nat
     = data (subtract (mkGreyscaleImage [10; 200] 2 1) (mkGreyscaleImage [30; 5] 2 1))
         !! 0%nat
     <-> r = 255).
Proof.
  apply (subtract_zero_adds_128
           (mkGreyscaleImage [10; 200] 2 1) (mkGreyscaleImage [30; 5] 2 1) 0%nat);
    first [reflexivity | simpl; lia].
Defined.

(** What [toBinary] stores for an integer threshold [t]: white from [t] up,
    black below [t - 1], and the sample itself at [t - 1], where the factor
    [d - t + 1] is zero. *)
Lemma toBinary_lookup (this : GreyscaleImage) (t : Z) (i : nat) (d : Z) :
  data this !! i = Some d ->
  0 <= d <= 255 ->
  data (toBinary this (Js.of_Z t)) !! i
  = Some (if t <=? d then 255 else if d =? t - 1 then d else 0).
Proof.
  intros Hd Bd. unfold toBinary. cbn [data set_data].
  pose proof (lookup_lt_Some _ _ _ Hd) as Hlen.
  rewrite store_loop_done by assumption.
  rewrite load_of_nat, store_loop_untouched, Hd by lia.
  f_equal. cbn [Js.of_read Js.of_Z Js.sub Js.add Js.mul].
  rewrite (to_uint8_clamp_of_Qeq_Z _ (d + (d - t + 1) * 255)) by Qint.
  destruct (Z.leb_spec t d); [lia|].
  destruct (Z.eqb_spec d (t - 1)); lia.
Qed.

(** C1 (the code at the failing input): with the default threshold 128 a
    sample equal to 127 = whiteThreshold - 1 is left at 127 by [toBinary];
    the claim wants it to become 0. *)
Theorem toBinary_keeps_threshold_minus_one :
  data (toBinary (mkGreyscaleImage [126; 127; 128] 3 1) (Js.of_Z 128)) = [0; 127; 255].
Proof. vm_compute. reflexivity. Qed.

(** ** discardOutliers *)

Lemma add_NaN_r (a : Js.number) : Js.add a Js.NaN = Js.NaN.
Proof. now destruct a. Qed.

(** A read above the buffer or below it makes the whole sum [NaN]. *)
Lemma neighbourSum_NaN_above (d : Uint8ClampedArray) (w i : Z) :
  load d (i - w - 1) = None -> neighbourSum d w i = Js.NaN.
Proof. intros H. unfold neighbourSum. rewrite H. reflexivity. Qed.

Lemma neighbourSum_NaN_below (d : Uint8ClampedArray) (w i : Z) :
  load d (i + w + 1) = None -> neighbourSum d w i = Js.NaN.
Proof. intros H. unfold neighbourSum. rewrite H. apply add_NaN_r. Qed.

(** With the nine reads inside the buffer the sum is the integer sum. *)
Lemma neighbourSum_inside (d : Uint8ClampedArray) (w i : Z) :
  0 <= w -> 0 <= i - w - 1 -> i + w + 1 < Z.of_nat (length d) ->
  exists v1 v2 v3 v4 v5 v6 v7 v8 v9,
    load d (i - w - 1) = Some v1 /\ load d (i - w) = Some v2 /\
    load d (i - w + 1) = Some v3 /\ load d (i - 1) = Some v4 /\
    load d i = Some v5 /\ load d (i + 1) = Some v6 /\
    load d (i + w - 1) = Some v7 /\ load d (i + w) = Some v8 /\
    load d (i + w + 1) = Some v9 /\
    neighbourSum d w i = Js.of_Z (v1 + v2 + v3 + v4 + v5 + v6 + v7 + v8 + v9).
Proof.
  intros Hw Hlo Hhi.
  destruct (load_inside d (i - w - 1)) as [v1 H1]; [lia|].
  destruct (load_inside d (i - w)) as [v2 H2]; [lia|].
  destruct (load_inside d (i - w + 1)) as [v3 H3]; [lia|].
  destruct (load_inside d (i - 1)) as [v4 H4]; [lia|].
  destruct (load_inside d i) as [v5 H5]; [lia|].
  destruct (load_inside d (i + 1)) as [v6 H6]; [lia|].
  destruct (load_inside d (i + w - 1)) as [v7 H7]; [lia|].
  destruct (load_inside d (i + w)) as [v8 H8]; [lia|].
  destruct (load_inside d (i + w + 1)) as [v9 H9]; [lia|].
  exists v1, v2, v3, v4, v5, v6, v7, v8, v9.
  repeat (split; [assumption|]).
  unfold neighbourSum. rewrite H1, H2, H3, H4, H5, H6, H7, H8, H9.
  unfold Js.of_read, Js.of_Z, Js.add. f_equal.
  unfold Qplus, inject_Z. cbn [Qnum Qden Pos.mul]. f_equal. lia.
Qed.

Lemma load_bytes (d : Uint8ClampedArray) (k v : Z) :
  bytes d -> load d k = Some v -> 0 <= v <= 255.
Proof.
  unfold load. intros Hb H. destruct (k <? 0); [discriminate|].
  eapply bytes_lookup; eassumption.
Qed.

(** The cell iteration [i] of [discardOutliers] writes. *)
Lemma discardOutliers_lookup (this : GreyscaleImage) (thr : Js.number) (i : nat) :
  (i < length (data this))%nat ->
  exists d,
    length d = length (data this) /\
    (bytes (data this) -> bytes d) /\
    (forall j, (i <= j)%nat -> d !! j = data this !! j) /\
    data (discardOutliers this thr) !! i
    = Some (Js.to_uint8_clamp
              (if Js.ge (neighbourSum d (width this) (Z.of_nat i))
                        (Js.mul thr (Js.of_Z 255))
               then Js.of_Z 255 else Js.of_Z 0)).
Proof.
  intros Hi. unfold discardOutliers. cbn [data set_data].
  set (g := fun (i : nat) (d : list Z) =>
              if Js.ge (neighbourSum d (width this) (Z.of_nat i))
                       (Js.mul thr (Js.of_Z 255))
              then Js.of_Z 255 else Js.of_Z 0).
  exists (for_loop i (fun i d => store d i (g i d)) (data this)).
  split; [apply store_loop_length|].
  split; [apply store_loop_bytes|].
  split; [intros j Hj; now apply store_loop_untouched|].
  now rewrite (store_loop_done g) by assumption.
Qed.

(** C10: after [discardOutliers] every pixel of the first row and every
    pixel of the last row is 0, whatever the frame held: one of the nine
    reads falls outside the buffer, the sum is NaN and the comparison
    fails.  (Width at least 1, height at least 2 and a positive threshold
    are the claim's setting.) *)
Theorem discardOutliers_border_rows_zero (this : GreyscaleImage) (q : Q) (i : nat) :
  well_sized this ->
  1 <= width this -> 2 <= height this ->
  (0 < q)%Q ->
  (i < length (data this))%nat ->
  Z.of_nat i < width this \/ width this * (height this - 1) <= Z.of_nat i ->
  data (discardOutliers this (Js.Fin q)) !! i = Some 0.
Proof.
  intros Hws Hw Hh _ Hi Hrow.
  destruct (discardOutliers_lookup this (Js.Fin q) i Hi) as (d & Hlen & _ & _ & ->).
  assert (HNaN : neighbourSum d (width this) (Z.of_nat i) = Js.NaN).
  { destruct Hrow as [Hfirst|Hlast].
    - apply neighbourSum_NaN_above, load_negative. lia.
    - apply neighbourSum_NaN_below, load_beyond.
      rewrite Hlen, Hws. rewrite Z2Nat.id by nia. nia. }
  rewrite HNaN. reflexivity.
Qed.

Lemma discardOutliers_border_rows_zero_witness :
  data (discardOutliers (mkGreyscaleImage [255; 255; 255; 255; 255; 255] 2 3) (Js.Fin (1 # 2)))
    !! 5%nat
  = Some 0.
Proof.
  apply (discardOutliers_border_rows_zero
           (mkGreyscaleImage [255; 255; 255; 255; 255; 255] 2 3) (1 # 2) 5%nat);
    first [reflexivity | simpl; lia | right; simpl; lia].
Defined.

(** C2 (as stated, refuted): in the 3x3 frame whose only white pixel is the
    centre, [discardOutliers] with outlierThreshold = 0.5 does not set the
    centre to 0: its neighbourhood sums to 255, which is at least
    0.5 * 255. *)
Lemma discardOutliers_half_keeps_isolated_pixel :
  data (discardOutliers (mkGreyscaleImage [0; 0; 0; 0; 255; 0; 0; 0; 0] 3 3) (Js.Fin (1 # 2)))
    !! 4%nat
  <> Some 0.
Proof. vm_compute. discriminate. Qed.

(** C2 (amended): with outlierThreshold = 0.5 a pixel equal to 255 whose
    nine neighbourhood reads all fall inside the buffer (index [i] with
    [w + 1 <= i] and [i + w + 1 < length]) is still 255 after
    [discardOutliers], be it isolated or part of a solid 3x3 block: the
    pixel's own 255 already reaches 0.5 * 255. *)
Theorem discardOutliers_half_keeps_white (this : GreyscaleImage) (i : nat) :
  bytes (data this) ->
  0 <= width this ->
  width this + 1 <= Z.of_nat i ->
  Z.of_nat i + width this + 1 < Z.of_nat (length (data this)) ->
  data this !! i = Some 255 ->
  data (discardOutliers this (Js.Fin (1 # 2))) !! i = Some 255.
Proof.
  intros Hb Hw Hlo Hhi Hpix.
  destruct (discardOutliers_lookup this (Js.Fin (1 # 2)) i) as (d & Hlen & Hbd & Hsame & ->);
    [lia|].
  specialize (Hbd Hb).
  destruct (neighbourSum_inside d (width this) (Z.of_nat i))
    as (v1 & v2 & v3 & v4 & v5 & v6 & v7 & v8 & v9 &
        H1 & H2 & H3 & H4 & H5 & H6 & H7 & H8 & H9 & ->); [lia..|].
  rewrite load_of_nat, Hsame, Hpix in H5 by lia.
  injection H5 as <-.
  pose proof (load_bytes _ _ _ Hbd H1). pose proof (load_bytes _ _ _ Hbd H2).
  pose proof (load_bytes _ _ _ Hbd H3). pose proof (load_bytes _ _ _ Hbd H4).
  pose proof (load_bytes _ _ _ Hbd H6). pose proof (load_bytes _ _ _ Hbd H7).
  pose proof (load_bytes _ _ _ Hbd H8). pose proof (load_bytes _ _ _ Hbd H9).
  assert (Hge : Js.ge (Js.of_Z (v1 + v2 + v3 + v4 + 255 + v6 + v7 + v8 + v9))
                      (Js.mul (Js.Fin (1 # 2)) (Js.of_Z 255)) = true).
  { unfold Js.ge, Js.mul, Js.of_Z. apply Qle_bool_iff.
    unfold Qle, Qmult, inject_Z. cbn [Qnum Qden]. lia. }
  rewrite Hge. reflexivity.
Qed.

Lemma discardOutliers_half_keeps_white_witness :
  data (discardOutliers
          (mkGreyscaleImage
             [0; 0; 0; 0; 0;
              0; 255; 255; 255; 0;
              0; 255; 255; 255; 0;
              0; 255; 255; 255; 0;
              0; 0; 0; 0; 0] 5 5)
          (Js.Fin (1 # 2)))
    !! 18%nat
  = Some 255.
Proof.
  apply (discardOutliers_half_keeps_white
           (mkGreyscaleImage
              [0; 0; 0; 0; 0;
               0; 255; 255; 255; 0;
               0; 255; 255; 255; 0;
               0; 255; 255; 255; 0;
               0; 0; 0; 0; 0] 5 5)
           18%nat);
    first [reflexivity | simpl; lia | repeat constructor; lia].
Defined.

(** The threshold counts white neighbours: above 1 (and with a width of at
    least 3, so that the nine reads are nine cells) a frame whose only
    non-zero pixel is [p] comes out all black. *)
Lemma discardOutliers_suppresses_lone_pixel (this : GreyscaleImage) (q : Q) (p : nat) :
  bytes (data this) ->
  3 <= width this ->
  (1 < q)%Q ->
  (forall j v, data this !! j = Some v -> j <> p -> v = 0) ->
  forall j, (j < length (data this))%nat ->
    data (discardOutliers this (Js.Fin q)) !! j = Some 0.
Proof.
  intros Hb Hw Hq Hlone.
  unfold discardOutliers. cbn [data set_data].
  set (g := fun (i : nat) (d : list Z) =>
              if Js.ge (neighbourSum d (width this) (Z.of_nat i))
                       (Js.mul (Js.Fin q) (Js.of_Z 255))
              then Js.of_Z 255 else Js.of_Z 0).
  change (forall j, (j < length (data this))%nat ->
            for_loop (length (data this)) (fun i d => store d i (g i d)) (data this) !! j
            = Some 0).
  assert (Hall : forall n, (n <= length (data this))%nat -> forall j, (j < n)%nat ->
            for_loop n (fun i d => store d i (g i d)) (data this) !! j = Some 0).
  2: { intros j Hj. now apply (Hall (length (data this))). }
  induction n as [|n IH]; intros Hn j Hj; [lia|].
  rewrite for_loop_S.
  destruct (decide (j = n)) as [->|Hne].
  2: { rewrite store_lookup_ne by lia. apply IH; lia. }
  rewrite store_lookup_eq by (rewrite (store_loop_length g); lia).
  f_equal.
  set (d := for_loop n (fun i d => store d i (g i d)) (data this)) in *.
  assert (Hd : forall k v, load d k = Some v ->
                 0 <= v <= 255 /\ (k <> Z.of_nat p -> v = 0)).
  { intros k v Hk. split.
    - eapply load_bytes; [|exact Hk]. now apply (store_loop_bytes g).
    - intros Hkp. unfold load in Hk. destruct (Z.ltb_spec k 0); [discriminate|].
      destruct (decide (Z.to_nat k < n)%nat) as [Hlt|Hge].
      + rewrite IH in Hk by lia. congruence.
      + unfold d in Hk. rewrite (store_loop_untouched g) in Hk by lia.
        apply (Hlone _ _ Hk). lia. }
  unfold g.
  destruct (neighbourSum d (width this) (Z.of_nat n)) as [|s] eqn:Hs; [reflexivity|].
  destruct (Z_lt_le_dec (Z.of_nat n - width this - 1) 0) as [Hlo|Hlo].
  { rewrite neighbourSum_NaN_above in Hs by (apply load_negative; lia). discriminate. }
  destruct (Z_lt_le_dec (Z.of_nat n + width this + 1) (Z.of_nat (length d))) as [Hhi|Hhi].
  2: { rewrite neighbourSum_NaN_below in Hs by (apply load_beyond; lia). discriminate. }
  destruct (neighbourSum_inside d (width this) (Z.of_nat n))
    as (v1 & v2 & v3 & v4 & v5 & v6 & v7 & v8 & v9 &
        H1 & H2 & H3 & H4 & H5 & H6 & H7 & H8 & H9 & Hsum); [lia..|].
  rewrite Hsum in Hs. injection Hs as <-.
  apply Hd in H1, H2, H3, H4, H5, H6, H7, H8, H9.
  assert (Hle : v1 + v2 + v3 + v4 + v5 + v6 + v7 + v8 + v9 <= 255) by lia.
  assert (Hlt : Js.ge (Js.of_Z (v1 + v2 + v3 + v4 + v5 + v6 + v7 + v8 + v9))
                      (Js.mul (Js.Fin q) (Js.of_Z 255)) = false).
  { unfold Js.ge, Js.mul, Js.of_Z. apply Qle_bool_false.
    apply Qle_lt_trans with (inject_Z 255); [now rewrite <- Zle_Qle|].
    rewrite <- (Qmult_1_l (inject_Z 255)) at 1.
    apply Qmult_lt_compat_r; [reflexivity|assumption]. }
  fold (Js.of_Z (v1 + v2 + v3 + v4 + v5 + v6 + v7 + v8 + v9)).
  rewrite Hlt. reflexivity.
Qed.

(** ** TransitionCountingImage *)

Lemma pixel_set_count_ne (t : TransitionCountingImage) (i j : nat) (v : Js.number) :
  i <> j -> pixel (set_count t i v) j = pixel t j.
Proof. intros H. unfold pixel, set_count. cbn. now rewrite store_lookup_ne. Qed.

Lemma pixel_set_nextExpected_ne (t : TransitionCountingImage) (i j : nat) (v : Js.number) :
  i <> j -> pixel (set_nextExpected t i v) j = pixel t j.
Proof. intros H. unfold pixel, set_nextExpected. cbn. now rewrite store_lookup_ne. Qed.

Lemma pixel_set_txTimer_ne (t : TransitionCountingImage) (i j : nat) (v : Js.number) :
  i <> j -> pixel (set_txTimer t i v) j = pixel t j.
Proof. intros H. unfold pixel, set_txTimer. cbn. now rewrite store_lookup_ne. Qed.

(** Iteration [i] of [update] leaves the other pixels alone. *)
Lemma update_pixel_frame (source : GreyscaleImage) (mi : Js.number)
    (i : nat) (t : TransitionCountingImage) (j : nat) :
  i <> j -> pixel (update_pixel source mi i t) j = pixel t j.
Proof.
  intros H. unfold update_pixel. cbv zeta.
  repeat match goal with
         | |- context [if ?b then _ else _] => destruct b
         end;
    repeat first [ rewrite pixel_set_txTimer_ne by assumption
                 | rewrite pixel_set_nextExpected_ne by assumption
                 | rewrite pixel_set_count_ne by assumption ];
    reflexivity.
Qed.

(** Iteration [i] of [update] runs the pixel's state machine. *)
Lemma update_pixel_at (source : GreyscaleImage) (mi : Js.number)
    (i : nat) (t : TransitionCountingImage) (st : Z * Z * Z) :
  pixel t i = defined st ->
  pixel (update_pixel source mi i t) i
  = defined (pixel_step (data source !! i) mi st).
Proof.
  destruct st as [[c e] tm]. unfold pixel, defined. intros H.
  injection H as Hc He Ht.
  pose proof (lookup_lt_Some _ _ _ Hc) as Lc.
  pose proof (lookup_lt_Some _ _ _ He) as Le.
  pose proof (lookup_lt_Some _ _ _ Ht) as Lt.
  unfold update_pixel, pixel_step. cbv zeta.
  rewrite !load_of_nat, Hc. cbn [Js.loose_eq].
  destruct (c =? 0).
  - destruct (Js.loose_eq (data source !! i) (Some 0)).
    { cbn. rewrite !store_lookup_eq by assumption. reflexivity. }
    destruct (Js.loose_eq (data source !! i) (Some 255)).
    { cbn. rewrite !store_lookup_eq by assumption. reflexivity. }
    cbn. now rewrite Hc, He, Ht.
  - cbn [set_txTimer txTimer nextExpected base].
    rewrite Ht, store_lookup_eq by assumption.
    cbn [Js.of_read Js.of_Z Js.add].
    rewrite (to_uint8_clamp_of_Qeq_Z _ (tm + 1)) by Qint.
    fold (clamp (tm + 1)). fold (Js.of_Z (clamp (tm + 1))).
    destruct (Js.gt (Js.of_Z (clamp (tm + 1))) mi).
    { cbn. rewrite !store_lookup_eq by assumption.
      rewrite He, (to_uint8_clamp_of_Qeq_Z _ (tm + 1)) by Qint. reflexivity. }
    rewrite He.
    destruct (Js.loose_eq (data source !! i) (Some e)).
    + cbn. rewrite Hc, He. cbn [Js.of_read Js.of_Z Js.add Js.sub].
      rewrite !store_lookup_eq by (rewrite ?length_store; assumption).
      rewrite (to_uint8_clamp_of_Qeq_Z _ (c + 1)) by Qint.
      rewrite (to_uint8_clamp_of_Qeq_Z _ (255 - e)) by Qint.
      reflexivity.
    + cbn. rewrite Hc, He, store_lookup_eq by assumption.
      rewrite (to_uint8_clamp_of_Qeq_Z _ (tm + 1)) by Qint. reflexivity.
Qed.

(** [update] runs the pixel's state machine at every index of the (possibly
    resized) image. *)
Lemma update_pixelwise (t : TransitionCountingImage) (source : GreyscaleImage)
    (mi : Js.number) (i : nat) (st : Z * Z * Z) :
  pixel (update_resize t source) i = defined st ->
  pixel (update t source mi) i = defined (pixel_step (data source !! i) mi st).
Proof.
  intros H. unfold update. cbv zeta.
  set (t0 := update_resize t source) in *.
  assert (Hi : (i < length (data (base t0)))%nat).
  { destruct st as [[c e] tm]. unfold pixel, defined in H.
    injection H as Hc _ _. exact (lookup_lt_Some _ _ _ Hc). }
  rewrite (for_loop_done (update_pixel source mi) pixel
             (update_pixel_frame source mi)) by assumption.
  apply update_pixel_at.
  rewrite (for_loop_untouched (update_pixel source mi) pixel
             (update_pixel_frame source mi)) by lia.
  exact H.
Qed.

Lemma update_resize_same (t : TransitionCountingImage) (source : GreyscaleImage) :
  width source = width (base t) -> height source = height (base t) ->
  update_resize t source = t.
Proof.
  intros Hw Hh. unfold update_resize. now rewrite Hw, Hh, !Z.eqb_refl.
Qed.

Lemma update_resize_dims (t : TransitionCountingImage) (source : GreyscaleImage) :
  width (base (update_resize t source)) = width source /\
  height (base (update_resize t source)) = height source.
Proof.
  unfold update_resize, _setSize.
  destruct (Z.eqb_spec (width source) (width (base t))) as [Hw|Hw];
    destruct (Z.eqb_spec (height source) (height (base t))) as [Hh|Hh];
    cbn; auto.
Qed.

Lemma update_pixel_dims (source : GreyscaleImage) (mi : Js.number) (i : nat)
    (t : TransitionCountingImage) :
  width (base (update_pixel source mi i t)) = width (base t) /\
  height (base (update_pixel source mi i t)) = height (base t).
Proof.
  unfold update_pixel. cbv zeta.
  repeat match goal with
         | |- context [if ?b then _ else _] => destruct b
         end; cbn; auto.
Qed.

Lemma update_dims (t : TransitionCountingImage) (source : GreyscaleImage) (mi : Js.number) :
  width (base (update t source mi)) = width source /\
  height (base (update t source mi)) = height source.
Proof.
  unfold update. cbv zeta.
  apply (for_loop_inv (update_pixel source mi)
           (fun t' => width (base t') = width source /\ height (base t') = height source)).
  - apply update_resize_dims.
  - intros i t' _ [Hw Hh].
    destruct (update_pixel_dims source mi i t') as [Hw' Hh']. split; congruence.
Qed.

(** The pixels of a freshly sized image are Idle. *)
Lemma update_resize_pixel (t : TransitionCountingImage) (source : GreyscaleImage) (i : nat) :
  width source <> width (base t) \/ height source <> height (base t) ->
  (i < Z.to_nat (width source * height source))%nat ->
  pixel (update_resize t source) i = defined (0, 0, 0).
Proof.
  intros Hne Hi. unfold update_resize, _setSize.
  assert (E : negb (width source =? width (base t))
              || negb (height source =? height (base t)) = true).
  { destruct (Z.eqb_spec (width source) (width (base t)));
      destruct (Z.eqb_spec (height source) (height (base t))); cbn; try reflexivity.
    destruct Hne; contradiction. }
  rewrite E. unfold pixel, defined. cbn [base data nextExpected txTimer].
  unfold new_array. rewrite length_replicate, Nat2Z.id.
  now rewrite !lookup_replicate_2 by assumption.
Qed.

Lemma counter_ok_new : counter_ok new_TransitionCountingImage.
Proof. split; try reflexivity; constructor. Qed.

Lemma counter_ok_resize (t : TransitionCountingImage) (source : GreyscaleImage) :
  counter_ok t -> counter_ok (update_resize t source).
Proof.
  intros H. unfold update_resize, _setSize.
  destruct (negb (width source =? width (base t))
            || negb (height source =? height (base t))); [|assumption].
  split; cbn [base data nextExpected txTimer width height].
  - unfold well_sized. cbn. apply length_new_array.
  - apply bytes_new_array.
  - apply Forall_replicate. now left.
  - apply bytes_new_array.
  - unfold new_array. now rewrite !length_replicate, Nat2Z.id.
  - unfold new_array. now rewrite !length_replicate, Nat2Z.id.
Qed.

Lemma expected_store (a : Uint8ClampedArray) (i : nat) (v : Js.number) :
  Forall (fun e => e = 0 \/ e = 255) a ->
  Js.to_uint8_clamp v = 0 \/ Js.to_uint8_clamp v = 255 ->
  Forall (fun e => e = 0 \/ e = 255) (store a i v).
Proof.
  intros H Hv. unfold store.
  destruct (decide (i < length a)%nat) as [Hi|Hi].
  - now apply Forall_insert.
  - now rewrite list_insert_ge by lia.
Qed.

Lemma flip_expected (a : Uint8ClampedArray) (k : Z) :
  Forall (fun e => e = 0 \/ e = 255) a ->
  Js.to_uint8_clamp (Js.sub (Js.of_Z 255) (Js.of_read (load a k))) = 0 \/
  Js.to_uint8_clamp (Js.sub (Js.of_Z 255) (Js.of_read (load a k))) = 255.
Proof.
  intros H. destruct (load a k) as [e|] eqn:E; [|now left].
  assert (He : e = 0 \/ e = 255).
  { unfold load in E. destruct (k <? 0); [discriminate|].
    exact (proj1 (Forall_lookup _ a) H _ _ E). }
  destruct He as [->| ->]; [right|left]; reflexivity.
Qed.

Lemma counter_ok_pixel (source : GreyscaleImage) (mi : Js.number) (i : nat)
    (t : TransitionCountingImage) :
  counter_ok t -> counter_ok (update_pixel source mi i t).
Proof.
  intros [Hs Hc He Ht Le Lt]. unfold update_pixel. cbv zeta.
  repeat match goal with
         | |- context [if ?b then _ else _] => destruct b
         end;
    (split; unfold well_sized;
     cbn [base data nextExpected txTimer width height
          set_count set_nextExpected set_txTimer set_data];
     rewrite ?length_store;
     first [ assumption
           | repeat apply bytes_store; assumption
           | apply expected_store;
             [assumption | first [now left | now right | now apply flip_expected] ] ]).
Qed.

Lemma counter_ok_update (t : TransitionCountingImage) (source : GreyscaleImage)
    (mi : Js.number) :
  counter_ok t -> counter_ok (update t source mi).
Proof.
  intros H. unfold update. cbv zeta.
  apply (for_loop_inv (update_pixel source mi) counter_ok).
  - now apply counter_ok_resize.
  - intros i t' _. apply counter_ok_pixel.
Qed.

Lemma counter_ok_updates (calls : list (GreyscaleImage * Js.number))
    (t : TransitionCountingImage) :
  counter_ok t -> counter_ok (updates t calls).
Proof.
  revert t. induction calls as [|[s mi] calls IH]; intros t H; [exact H|].
  cbn. apply IH. now apply counter_ok_update.
Qed.

(** One call on an image that already has the source's dimensions. *)
Lemma update_step (t : TransitionCountingImage) (source : GreyscaleImage)
    (mi : Js.number) (i : nat) (st : Z * Z * Z) :
  width source = width (base t) -> height source = height (base t) ->
  pixel t i = defined st ->
  pixel (update t source mi) i = defined (pixel_step (data source !! i) mi st).
Proof.
  intros Hw Hh H. apply update_pixelwise. now rewrite update_resize_same.
Qed.

(** The first call on a new counter: every pixel starts Idle. *)
Lemma update_first (source : GreyscaleImage) (mi : Js.number) (i : nat) :
  (i < Z.to_nat (width source * height source))%nat ->
  pixel (update new_TransitionCountingImage source mi) i
  = defined (pixel_step (data source !! i) mi (0, 0, 0)).
Proof.
  intros Hi. apply update_pixelwise. apply update_resize_pixel; [|assumption].
  cbn. destruct (Z.eq_dec (width source) 0) as [E|E]; [|now left].
  rewrite E in Hi. cbn in Hi. lia.
Qed.

Lemma updates_dims (calls : list (GreyscaleImage * Js.number))
    (t : TransitionCountingImage) :
  Forall (fun c => same_dims (width (base t)) (height (base t)) (fst c)) calls ->
  width (base (updates t calls)) = width (base t) /\
  height (base (updates t calls)) = height (base t).
Proof.
  revert t. induction calls as [|[s mi] calls IH]; intros t H; [now split|].
  apply Forall_cons in H as [[Hw Hh] H]. cbn in Hw, Hh. cbn [updates fold_left fst snd].
  destruct (update_dims t s mi) as [Hw' Hh'].
  destruct (IH (update t s mi)) as [Hw'' Hh''].
  { now rewrite Hw', Hh', Hw, Hh. }
  unfold updates in *. split; congruence.
Qed.

(** A run of calls on sources of the image's dimensions runs the pixel's
    state machine on the pixel's inputs. *)
Lemma updates_pixel (calls : list (GreyscaleImage * Js.number))
    (t : TransitionCountingImage) (i : nat) (st : Z * Z * Z) :
  Forall (fun c => same_dims (width (base t)) (height (base t)) (fst c)) calls ->
  pixel t i = defined st ->
  pixel (updates t calls) i
  = defined (pixel_run st (map (fun c => (data (fst c) !! i, snd c)) calls)).
Proof.
  revert t st. induction calls as [|[s mi] calls IH]; intros t st H Hp; [exact Hp|].
  apply Forall_cons in H as [[Hw Hh] H]. cbn in Hw, Hh.
  cbn [updates fold_left fst snd map pixel_run].
  destruct (update_dims t s mi) as [Hw' Hh'].
  apply IH.
  - now rewrite Hw', Hh', Hw, Hh.
  - now apply update_step.
Qed.

Lemma constant_inputs (gap : list GreyscaleImage) (mi : Js.number) (i : nat) (v : Z) :
  Forall (fun s => data s !! i = Some v) gap ->
  map (fun c : GreyscaleImage * Js.number => (data (fst c) !! i, snd c))
      (map (fun s => (s, mi)) gap)
  = replicate (length gap) (Some v, mi).
Proof.
  induction 1 as [|s gap Hs _ IH]; [reflexivity|].
  cbn. now rewrite Hs, IH.
Qed.

Lemma same_dims_calls (w h : Z) (l : list GreyscaleImage) (mi : Js.number) :
  Forall (same_dims w h) l ->
  Forall (fun c : GreyscaleImage * Js.number => same_dims w h (fst c))
         (map (fun s => (s, mi)) l).
Proof. intros H. apply Forall_map. exact H. Qed.

(** C4: a pixel fed 0, 255, 0, 255, 0 by five successive calls of [update]
    with maxInterval = 10, on a new counter, counts 1, 2, 3, 4, 5. *)
Theorem count_follows_alternation (w h : Z) (s1 s2 s3 s4 s5 : GreyscaleImage) (i : nat) :
  Forall (same_dims w h) [s1; s2; s3; s4; s5] ->
  (i < Z.to_nat (w * h))%nat ->
  data s1 !! i = Some 0 -> data s2 !! i = Some 255 -> data s3 !! i = Some 0 ->
  data s4 !! i = Some 255 -> data s5 !! i = Some 0 ->
  let t1 := update new_TransitionCountingImage s1 (Js.of_Z 10) in
  let t2 := update t1 s2 (Js.of_Z 10) in
  let t3 := update t2 s3 (Js.of_Z 10) in
  let t4 := update t3 s4 (Js.of_Z 10) in
  let t5 := update t4 s5 (Js.of_Z 10) in
  data (base t1) !! i = Some 1 /\ data (base t2) !! i = Some 2 /\
  data (base t3) !! i = Some 3 /\ data (base t4) !! i = Some 4 /\
  data (base t5) !! i = Some 5.
Proof.
  intros Hd Hi H1 H2 H3 H4 H5 t1 t2 t3 t4 t5.
  repeat (apply Forall_cons in Hd as [[? ?] Hd]). subst w h.
  assert (P1 : pixel t1 i = defined (1, 255, 0)).
  { unfold t1. rewrite update_first, H1 by assumption. reflexivity. }
  destruct (update_dims new_TransitionCountingImage s1 (Js.of_Z 10)) as [W1 E1].
  fold t1 in W1, E1.
  assert (P2 : pixel t2 i = defined (2, 0, 0)).
  { unfold t2. rewrite (update_step t1 s2 (Js.of_Z 10) i _ ltac:(congruence) ltac:(congruence) P1), H2.
    reflexivity. }
  destruct (update_dims t1 s2 (Js.of_Z 10)) as [W2 E2]. fold t2 in W2, E2.
  assert (P3 : pixel t3 i = defined (3, 255, 0)).
  { unfold t3. rewrite (update_step t2 s3 (Js.of_Z 10) i _ ltac:(congruence) ltac:(congruence) P2), H3.
    reflexivity. }
  destruct (update_dims t2 s3 (Js.of_Z 10)) as [W3 E3]. fold t3 in W3, E3.
  assert (P4 : pixel t4 i = defined (4, 0, 0)).
  { unfold t4. rewrite (update_step t3 s4 (Js.of_Z 10) i _ ltac:(congruence) ltac:(congruence) P3), H4.
    reflexivity. }
  destruct (update_dims t3 s4 (Js.of_Z 10)) as [W4 E4]. fold t4 in W4, E4.
  assert (P5 : pixel t5 i = defined (5, 255, 0)).
  { unfold t5. rewrite (update_step t4 s5 (Js.of_Z 10) i _ ltac:(congruence) ltac:(congruence) P4), H5.
    reflexivity. }
  unfold pixel, defined in P1, P2, P3, P4, P5.
  repeat split; congruence.
Qed.

Lemma count_follows_alternation_witness :
  data (base (updates new_TransitionCountingImage
                [(pixel_frame 0, Js.of_Z 10)])) !! 0%nat = Some 1 /\
  data (base (updates new_TransitionCountingImage
                [(pixel_frame 0, Js.of_Z 10); (pixel_frame 255, Js.of_Z 10)])) !! 0%nat
  = Some 2 /\
  data (base (updates new_TransitionCountingImage
                [(pixel_frame 0, Js.of_Z 10); (pixel_frame 255, Js.of_Z 10);
                 (pixel_frame 0, Js.of_Z 10)])) !! 0%nat
  = Some 3 /\
  data (base (updates new_TransitionCountingImage
                [(pixel_frame 0, Js.of_Z 10); (pixel_frame 255, Js.of_Z 10);
                 (pixel_frame 0, Js.of_Z 10); (pixel_frame 255, Js.of_Z 10)])) !! 0%nat
  = Some 4 /\
  data (base (updates new_TransitionCountingImage
                [(pixel_frame 0, Js.of_Z 10); (pixel_frame 255, Js.of_Z 10);
                 (pixel_frame 0, Js.of_Z 10); (pixel_frame 255, Js.of_Z 10);
                 (pixel_frame 0, Js.of_Z 10)])) !! 0%nat
  = Some 5.
Proof.
  apply (count_follows_alternation 1 1
           (pixel_frame 0) (pixel_frame 255) (pixel_frame 0) (pixel_frame 255)
           (pixel_frame 0) 0%nat);
    first [ reflexivity | simpl; lia | repeat constructor ].
Defined.

(** C3: a pixel fed 0 once, then 0 again for 11 calls, then 255, with
    maxInterval = 10 on a new counter: the count is 1 after the first call
    and still 1 after ten of the eleven, the eleventh (timer 11 > 10) resets
    it to 0, and the call that delivers 255 finds the pixel Idle and sets
    the count to exactly 1. *)
Theorem stale_pixel_restarts (w h : Z) (first : GreyscaleImage)
    (gap : list GreyscaleImage) (last : GreyscaleImage) (i : nat) :
  Forall (same_dims w h) (first :: last :: gap) ->
  (i < Z.to_nat (w * h))%nat ->
  data first !! i = Some 0 ->
  length gap = 11%nat ->
  Forall (fun s => data s !! i = Some 0) gap ->
  data last !! i = Some 255 ->
  let t1 := update new_TransitionCountingImage first (Js.of_Z 10) in
  let t_ten := updates t1 (map (fun s => (s, Js.of_Z 10)) (take 10 gap)) in
  let t_gap := updates t1 (map (fun s => (s, Js.of_Z 10)) gap) in
  let t_last := update t_gap last (Js.of_Z 10) in
  data (base t1) !! i = Some 1 /\
  data (base t_ten) !! i = Some 1 /\
  data (base t_gap) !! i = Some 0 /\
  data (base t_last) !! i = Some 1.
Proof.
  intros Hd Hi H1 Hlen Hgap Hlast t1 t_ten t_gap t_last.
  apply Forall_cons in Hd as [[? ?] Hd]. apply Forall_cons in Hd as [[Wl El] Hd].
  subst w h.
  assert (P1 : pixel t1 i = defined (1, 255, 0)).
  { unfold t1. rewrite update_first, H1 by assumption. reflexivity. }
  destruct (update_dims new_TransitionCountingImage first (Js.of_Z 10)) as [W1 E1].
  fold t1 in W1, E1.
  assert (Dgap : Forall (fun c : GreyscaleImage * Js.number =>
                           same_dims (width (base t1)) (height (base t1)) (fst c))
                        (map (fun s => (s, Js.of_Z 10)) gap)).
  { rewrite W1, E1. now apply same_dims_calls. }
  assert (Dten : Forall (fun c : GreyscaleImage * Js.number =>
                           same_dims (width (base t1)) (height (base t1)) (fst c))
                        (map (fun s => (s, Js.of_Z 10)) (take 10 gap))).
  { rewrite W1, E1. apply same_dims_calls. now apply Forall_take. }
  assert (Pten : pixel t_ten i = defined (1, 255, 10)).
  { unfold t_ten. rewrite (updates_pixel _ _ _ _ Dten P1).
    rewrite (constant_inputs _ _ _ 0) by now apply Forall_take.
    rewrite length_take, Hlen. reflexivity. }
  assert (Pgap : pixel t_gap i = defined (0, 255, 11)).
  { unfold t_gap. rewrite (updates_pixel _ _ _ _ Dgap P1).
    rewrite (constant_inputs _ _ _ 0), Hlen by assumption. reflexivity. }
  destruct (updates_dims _ _ Dgap) as [Wg Eg]. fold t_gap in Wg, Eg.
  assert (Plast : pixel t_last i = defined (1, 0, 0)).
  { unfold t_last.
    rewrite (update_step t_gap last (Js.of_Z 10) i _
               ltac:(congruence) ltac:(congruence) Pgap), Hlast.
    reflexivity. }
  unfold pixel, defined in P1, Pten, Pgap, Plast.
  repeat split; congruence.
Qed.

Lemma stale_pixel_restarts_witness :
  data (base (update new_TransitionCountingImage (pixel_frame 0) (Js.of_Z 10)))
    !! 0%nat = Some 1 /\
  data (base (updates (update new_TransitionCountingImage (pixel_frame 0) (Js.of_Z 10))
                (map (fun s => (s, Js.of_Z 10)) (take 10 (replicate 11 (pixel_frame 0))))))
    !! 0%nat = Some 1 /\
  data (base (updates (update new_TransitionCountingImage (pixel_frame 0) (Js.of_Z 10))
                (map (fun s => (s, Js.of_Z 10)) (replicate 11 (pixel_frame 0)))))
    !! 0%nat = Some 0 /\
  data (base (update
                (updates (update new_TransitionCountingImage (pixel_frame 0) (Js.of_Z 10))
                   (map (fun s => (s, Js.of_Z 10)) (replicate 11 (pixel_frame 0))))
                (pixel_frame 255) (Js.of_Z 10)))
    !! 0%nat = Some 1.
Proof.
  apply (stale_pixel_restarts 1 1 (pixel_frame 0) (replicate 11 (pixel_frame 0))
           (pixel_frame 255) 0%nat);
    first [ reflexivity | simpl; lia | repeat constructor ].
Defined.

Lemma counter_ok_pixel_defined (t : TransitionCountingImage) (i : nat) (c : Z) :
  counter_ok t ->
  data (base t) !! i = Some c ->
  exists e tm,
    pixel t i = defined (c, e, tm) /\
    0 <= c <= 255 /\ (e = 0 \/ e = 255) /\ 0 <= tm <= 255.
Proof.
  intros [Hs Hc He Ht Le Lt] Hi.
  pose proof (lookup_lt_Some _ _ _ Hi) as Li.
  destruct (lookup_lt_is_Some_2 (nextExpected t) i) as [e E]; [lia|].
  destruct (lookup_lt_is_Some_2 (txTimer t) i) as [tm T]; [lia|].
  exists e, tm. unfold pixel, defined. rewrite Hi, E, T.
  split; [reflexivity|].
  split; [exact (bytes_lookup _ _ _ Hc Hi)|].
  split; [exact (proj1 (Forall_lookup _ _) He _ _ E)|].
  exact (bytes_lookup _ _ _ Ht T).
Qed.

(** C7: in every state a new counter reaches by calls of [update], a pixel
    with count > 0 has nextExpected exactly 0 or 255; and when the next call
    (on a source of the counter's dimensions) accepts a transition at that
    pixel - the source pixel equals nextExpected and the incremented timer
    does not exceed maxInterval - it leaves txTimer at 0 (flipping
    nextExpected and incrementing the saturating count). *)
Theorem expected_is_extremum_and_timer_resets
    (calls : list (GreyscaleImage * Js.number)) (source : GreyscaleImage)
    (mi : Js.number) (i : nat) (c : Z) :
  let t := updates new_TransitionCountingImage calls in
  data (base t) !! i = Some c ->
  0 < c ->
  exists e tm,
    nextExpected t !! i = Some e /\ txTimer t !! i = Some tm /\
    (e = 0 \/ e = 255) /\
    (width source = width (base t) -> height source = height (base t) ->
     data source !! i = Some e ->
     Js.gt (Js.of_Z (clamp (tm + 1))) mi = false ->
     txTimer (update t source mi) !! i = Some 0 /\
     nextExpected (update t source mi) !! i = Some (255 - e) /\
     data (base (update t source mi)) !! i = Some (clamp (c + 1))).
Proof.
  intros t Hc Hpos.
  assert (Hok : counter_ok t) by (apply counter_ok_updates, counter_ok_new).
  destruct (counter_ok_pixel_defined t i c Hok Hc) as (e & tm & Hp & Bc & Be & Bt).
  exists e, tm.
  pose proof Hp as Hp'. unfold pixel, defined in Hp'. injection Hp' as _ E T.
  split; [exact E|]. split; [exact T|]. split; [exact Be|].
  intros Hw Hh Hsrc Hgt.
  pose proof (update_step t source mi i _ Hw Hh Hp) as Hstep.
  rewrite Hsrc in Hstep. unfold pixel_step in Hstep.
  destruct (Z.eqb_spec c 0) as [?|_]; [lia|].
  rewrite Hgt in Hstep. cbn [Js.loose_eq] in Hstep.
  rewrite Z.eqb_refl in Hstep.
  unfold pixel, defined in Hstep. injection Hstep as Hc' He' Ht'.
  split; [exact Ht'|]. split; [|exact Hc'].
  rewrite He'. f_equal. unfold clamp. destruct Be; subst e; reflexivity.
Qed.

Lemma expected_is_extremum_and_timer_resets_witness :
  nextExpected (updates new_TransitionCountingImage [(pixel_frame 0, Js.of_Z 10)])
    !! 0%nat = Some 255 /\
  txTimer (update (updates new_TransitionCountingImage [(pixel_frame 0, Js.of_Z 10)])
             (pixel_frame 255) (Js.of_Z 10))
    !! 0%nat = Some 0.
Proof.
  destruct (expected_is_extremum_and_timer_resets
              [(pixel_frame 0, Js.of_Z 10)] (pixel_frame 255) (Js.of_Z 10) 0%nat 1
              eq_refl ltac:(lia))
    as (e & tm & He & Ht & _ & Hacc).
  injection He as <-. injection Ht as <-.
  split; [reflexivity|].
  apply Hacc; reflexivity.
Defined.

(** With maxInterval at least 255 the staleness test never fires and the
    count of a pixel does not decrease. *)
Lemma pixel_step_monotone (srcPixel : option Z) (q : Q) (c e tm : Z) :
  (255 <= q)%Q -> 0 <= c <= 255 ->
  fst (fst (pixel_step srcPixel (Js.Fin q) (c, e, tm))) >= c.
Proof.
  intros Hq Bc. unfold pixel_step.
  destruct (Z.eqb_spec c 0) as [->|Hc].
  - repeat match goal with |- context [if ?b then _ else _] => destruct b end;
      cbn; lia.
  - assert (Hgt : Js.gt (Js.of_Z (clamp (tm + 1))) (Js.Fin q) = false).
    { unfold Js.gt, Js.of_Z. apply Qlt_bool_false.
      apply Qle_trans with 255%Q; [|assumption].
      change 255%Q with (inject_Z 255). rewrite <- Zle_Qle. unfold clamp. lia. }
    rewrite Hgt.
    destruct (Js.loose_eq srcPixel (Some e)); cbn; unfold clamp; lia.
Qed.

Lemma updates_monotone (more : list (GreyscaleImage * Js.number))
    (t : TransitionCountingImage) (i : nat) (c : Z) :
  counter_ok t ->
  Forall (long_interval_call (width (base t)) (height (base t))) more ->
  data (base t) !! i = Some c ->
  exists c', data (base (updates t more)) !! i = Some c' /\ c <= c'.
Proof.
  revert t c. induction more as [|[s mi] more IH]; intros t c Hok Hm Hc.
  { exists c. split; [assumption|lia]. }
  apply Forall_cons in Hm as [[[Hw Hh] (q & Hq & Hge)] Hm]. cbn in Hw, Hh, Hq. subst mi.
  destruct (counter_ok_pixel_defined t i c Hok Hc) as (e & tm & Hp & Bc & _ & _).
  pose proof (update_step t s (Js.Fin q) i _ Hw Hh Hp) as Hstep.
  pose proof (pixel_step_monotone (data s !! i) q c e tm Hge Bc) as Hmono.
  destruct (pixel_step (data s !! i) (Js.Fin q) (c, e, tm)) as [[c1 e1] tm1].
  cbn in Hmono. unfold pixel, defined in Hstep. injection Hstep as Hc1 _ _.
  destruct (update_dims t s (Js.Fin q)) as [Hw' Hh'].
  destruct (IH (update t s (Js.Fin q)) c1) as (c' & Hc' & Hle).
  - now apply counter_ok_update.
  - now rewrite Hw', Hh', Hw, Hh.
  - assumption.
  - exists c'. split; [exact Hc'|lia].
Qed.

(** C9: from any state a new counter reaches, calls of [update] with
    maxInterval >= 255 never lower the count of a pixel, so an Active pixel
    stays Active: txTimer never exceeds 255 and the test
    txTimer > maxInterval always fails.  (The calls are on sources of the
    counter's dimensions: a source of other dimensions makes [update]
    allocate new arrays, which is not the staleness path.) *)
Theorem long_interval_never_resets
    (calls more : list (GreyscaleImage * Js.number)) (i : nat) (c : Z) :
  let t := updates new_TransitionCountingImage calls in
  Forall (long_interval_call (width (base t)) (height (base t))) more ->
  data (base t) !! i = Some c ->
  (exists c', data (base (updates t more)) !! i = Some c' /\
              c <= c' /\ (0 < c -> 0 < c')) /\
  (forall j tm, txTimer (updates t more) !! j = Some tm -> tm <= 255).
Proof.
  intros t Hm Hc.
  assert (Hok : counter_ok t) by (apply counter_ok_updates, counter_ok_new).
  split.
  - destruct (updates_monotone more t i c Hok Hm Hc) as (c' & Hc' & Hle).
    exists c'. repeat split; [assumption|lia|lia].
  - intros j tm Htm.
    pose proof (counter_ok_updates more t Hok) as [_ _ _ Ht _ _].
    pose proof (bytes_lookup _ _ _ Ht Htm). lia.
Qed.

Lemma long_interval_never_resets_witness :
  (exists c',
     data (base (updates (updates new_TransitionCountingImage [(pixel_frame 0, Js.of_Z 10)])
                   [(pixel_frame 0, Js.of_Z 300); (pixel_frame 255, Js.of_Z 300)]))
       !! 0%nat = Some c' /\
     1 <= c' /\ (0 < 1 -> 0 < c')) /\
  (forall j tm,
     txTimer (updates (updates new_TransitionCountingImage [(pixel_frame 0, Js.of_Z 10)])
                [(pixel_frame 0, Js.of_Z 300); (pixel_frame 255, Js.of_Z 300)])
       !! j = Some tm ->
     tm <= 255).
Proof.
  apply (long_interval_never_resets
           [(pixel_frame 0, Js.of_Z 10)]
           [(pixel_frame 0, Js.of_Z 300); (pixel_frame 255, Js.of_Z 300)] 0%nat 1).
  - assert (Hq : (255 <= inject_Z 300)%Q) by (unfold Qle; simpl; lia).
    constructor; [|constructor; [|constructor]].
    + split; [split; reflexivity|]. exists (inject_Z 300). split; [reflexivity|exact Hq].
    + split; [split; reflexivity|]. exists (inject_Z 300). split; [reflexivity|exact Hq].
  - reflexivity.
Defined.

(** ** The tick *)

Lemma set_data_well_sized (this : GreyscaleImage) (d : Uint8ClampedArray) :
  well_sized this -> length d = length (data this) -> well_sized (set_data this d).
Proof. unfold well_sized. cbn. congruence. Qed.

Lemma updateFrom_well_sized (this source : GreyscaleImage) :
  well_sized this -> well_sized (updateFrom this source).
Proof.
  intros H. unfold updateFrom. cbv zeta.
  destruct (_setSize_spec this (width source) (height source) H) as (H' & _ & _).
  apply set_data_well_sized; [assumption|apply store_loop_length].
Qed.

Lemma subtract_well_sized (this other : GreyscaleImage) :
  well_sized this -> well_sized (subtract this other).
Proof. intros H. apply set_data_well_sized; [assumption|apply store_loop_length]. Qed.

Lemma increaseContrast_well_sized (this : GreyscaleImage) (factor : Js.number) :
  well_sized this -> well_sized (increaseContrast this factor).
Proof. intros H. apply set_data_well_sized; [assumption|apply store_loop_length]. Qed.

Lemma toBinary_well_sized (this : GreyscaleImage) (t : Js.number) :
  well_sized this -> well_sized (toBinary this t).
Proof. intros H. apply set_data_well_sized; [assumption|apply store_loop_length]. Qed.

Lemma discardOutliers_well_sized (this : GreyscaleImage) (t : Js.number) :
  well_sized this -> well_sized (discardOutliers this t).
Proof. intros H. apply set_data_well_sized; [assumption|apply store_loop_length]. Qed.

(** [updateFrom] overwrites the whole of [this]: what a well-sized buffer
    held before does not matter. *)
Lemma updateFrom_any (a b source : GreyscaleImage) :
  well_sized a -> well_sized b -> updateFrom a source = updateFrom b source.
Proof.
  intros Ha Hb. unfold updateFrom. cbv zeta.
  destruct (_setSize_spec a (width source) (height source) Ha) as (Ha' & Wa & Ea).
  destruct (_setSize_spec b (width source) (height source) Hb) as (Hb' & Wb & Eb).
  set (a' := _setSize a (width source) (height source)) in *.
  set (b' := _setSize b (width source) (height source)) in *.
  assert (Hlen : length (data a') = length (data b')).
  { rewrite Ha', Hb'. congruence. }
  unfold set_data. rewrite Wa, Wb, Ea, Eb. f_equal.
  set (g := fun (i : nat) (_ : list Z) => Js.of_read (load (data source) (Z.of_nat i))).
  apply list_eq. intros i.
  destruct (decide (i < length (data a'))%nat) as [Hi|Hi].
  - rewrite !(store_loop_done g) by lia. reflexivity.
  - rewrite !lookup_ge_None_2; [reflexivity| |];
      rewrite (store_loop_length g); lia.
Qed.

(** ** The tick on an explicit heap *)

Lemma insert_last (l : heap) (x y : object) :
  <[length l := y]> (l ++ [x]) = l ++ [y].
Proof. induction l as [|a l IH]; [reflexivity|]. cbn. f_equal. exact IH. Qed.

Lemma lookup_last (l : heap) (x : object) : (l ++ [x]) !! length l = Some x.
Proof. now apply list_lookup_middle. Qed.

Lemma invoke_new (m : GreyscaleImage -> GreyscaleImage)
    (b0 b1 b2 b3 b4 x : object) (rest : heap) :
  invoke m (S (S (S (S (S (length rest))))))
    (b0 :: b1 :: b2 :: b3 :: b4 :: rest ++ [x])
  = b0 :: b1 :: b2 :: b3 :: b4 :: rest ++ [with_image x (m (image_of x))].
Proof.
  unfold invoke.
  assert (E : (b0 :: b1 :: b2 :: b3 :: b4 :: rest ++ [x])
                !! S (S (S (S (S (length rest))))) = Some x)
    by exact (lookup_last rest x).
  rewrite E.
  exact (f_equal (fun l => b0 :: b1 :: b2 :: b3 :: b4 :: l)
           (insert_last rest x (with_image x (m (image_of x))))).
Qed.

Lemma invoke_with_new (m : GreyscaleImage -> GreyscaleImage -> GreyscaleImage)
    (b0 b1 b2 b3 b4 x : object) (rest : heap) :
  invoke_with m 0 (S (S (S (S (S (length rest))))))
    (b0 :: b1 :: b2 :: b3 :: b4 :: rest ++ [x])
  = with_image b0 (m (image_of b0) (image_of x))
      :: b1 :: b2 :: b3 :: b4 :: rest ++ [x].
Proof.
  unfold invoke_with.
  assert (E : (b0 :: b1 :: b2 :: b3 :: b4 :: rest ++ [x])
                !! S (S (S (S (S (length rest))))) = Some x)
    by exact (lookup_last rest x).
  now rewrite E.
Qed.

Lemma invoke_with_old (m : GreyscaleImage -> GreyscaleImage -> GreyscaleImage)
    (b0 b1 b2 b3 b4 o : object) (tl : heap) (k : nat) :
  tl !! k = Some o ->
  invoke_with m 0 (5 + k) (b0 :: b1 :: b2 :: b3 :: b4 :: tl)
  = with_image b0 (m (image_of b0) (image_of o)) :: b1 :: b2 :: b3 :: b4 :: tl.
Proof.
  intros H. unfold invoke_with.
  assert (E : (b0 :: b1 :: b2 :: b3 :: b4 :: tl) !! (5 + k)%nat = Some o) by exact H.
  now rewrite E.
Qed.

(** What a tick does to an explicit state: the five buffers at references
    0 to 4, the frames behind them. *)
Lemma tick_explicit (p : Sliders) (ctx : CanvasRenderingContext2D)
    (d0 d1 : GreyscaleImage) (t : TransitionCountingImage) (d3 d4 : GreyscaleImage)
    (rest : heap) (before : option ref) (k : nat) (o : object) :
  rest !! k = Some o ->
  tick p ctx
    (mkClosure (Some (5 + k)%nat) before 0%nat 1%nat 2%nat 3%nat 4%nat,
     Grey d0 :: Grey d1 :: Counter t :: Grey d3 :: Grey d4 :: rest)
  = let cur := read new_GreyscaleImage ctx in
    let diff := subtract (updateFrom d0 cur) (image_of o) in
    let hc := increaseContrast (updateFrom d1 diff) (contrastFactor p) in
    let st := update t hc (maxInterval p) in
    let wm0 := toBinary (updateFrom d3 (base st)) (transitionCount p) in
    let fl := updateFrom d4 wm0 in
    let wm := discardOutliers wm0 (outlierThreshold p) in
    ((mkClosure (Some (5 + length rest)%nat) (Some (5 + k)%nat) 0%nat 1%nat 2%nat 3%nat 4%nat,
      Grey diff :: Grey hc :: Counter st :: Grey wm :: Grey fl :: rest ++ [Grey cur]),
     Some (0 <? pixelSum wm)).
Proof.
  intros Hk.
  unfold tick, getGreyscaleImage, alloc.
  cbn [cameraImage prevCameraImage diffImage highContrastDiffImage stateImage waveMap
       filteredWaveMap app length].
  rewrite invoke_new, invoke_with_new.
  rewrite (invoke_with_old _ _ _ _ _ _ o) by (now apply lookup_app_l_Some).
  cbn [invoke invoke_with invoke_update invoke_pixelSum lookup list_lookup
       insert list_insert with_image image_of base Nat.add].
  reflexivity.
Qed.

(** The first tick: no previous frame yet, the guarded block is skipped. *)
Lemma tick_first (p : Sliders) (ctx : CanvasRenderingContext2D)
    (b0 b1 b2 b3 b4 : object) (rest : heap) (before : option ref) :
  tick p ctx (mkClosure None before 0%nat 1%nat 2%nat 3%nat 4%nat,
              b0 :: b1 :: b2 :: b3 :: b4 :: rest)
  = ((mkClosure (Some (5 + length rest)%nat) None 0%nat 1%nat 2%nat 3%nat 4%nat,
      b0 :: b1 :: b2 :: b3 :: b4 :: rest ++ [Grey (read new_GreyscaleImage ctx)]),
     None).
Proof.
  unfold tick, getGreyscaleImage, alloc.
  cbn [cameraImage prevCameraImage diffImage highContrastDiffImage stateImage waveMap
       filteredWaveMap app length].
  now rewrite invoke_new.
Qed.

Lemma well_sized_new : well_sized new_GreyscaleImage.
Proof. reflexivity. Qed.

Lemma tick_inv_onload : tick_inv onload.
Proof.
  exists None, None, new_GreyscaleImage, new_GreyscaleImage,
    new_TransitionCountingImage, new_GreyscaleImage, new_GreyscaleImage, [].
  repeat split; try apply well_sized_new; try apply counter_ok_new.
  intros r H. discriminate.
Qed.

Lemma tick_inv_tick (p : Sliders) (ctx : CanvasRenderingContext2D) (s : Closure * heap) :
  tick_inv s -> tick_inv (fst (tick p ctx s)).
Proof.
  intros (cam & before & d0 & d1 & t & d3 & d4 & rest & -> & H0 & H1 & Ht & H3 & H4 & Hcam).
  destruct cam as [r|].
  - destruct (Hcam r eq_refl) as (k & o & -> & Hk).
    rewrite (tick_explicit p ctx d0 d1 t d3 d4 rest before k o Hk). cbv zeta. cbn [fst].
    eexists _, _, _, _, _, _, _, _. split; [reflexivity|].
    split; [now apply subtract_well_sized, updateFrom_well_sized|].
    split; [now apply increaseContrast_well_sized, updateFrom_well_sized|].
    split; [now apply counter_ok_update|].
    split; [now apply discardOutliers_well_sized, toBinary_well_sized,
              updateFrom_well_sized|].
    split; [now apply updateFrom_well_sized|].
    intros r [= <-]. eexists _, _. split; [reflexivity|apply lookup_last].
  - rewrite tick_first. cbn [fst].
    eexists _, _, _, _, _, _, _, _. split; [reflexivity|].
    repeat (split; [assumption|]).
    intros r [= <-]. eexists _, _. split; [reflexivity|apply lookup_last].
Qed.

Lemma reachable_inv (s : Closure * heap) : reachable s -> tick_inv s.
Proof.
  induction 1 as [|p ctx s _ IH]; [apply tick_inv_onload|now apply tick_inv_tick].
Qed.

(** C8: a tick of the page, taken in any reachable state that has a
    previous frame.  Its verdict and the contents of its five buffers are a
    function of the canvas (the current frame), the previous frame, the four
    sliders and the counter's state: two reachable states that agree on the
    previous frame and on the counter give the same verdict and the same
    buffers, whatever the working buffers held.  And the tick writes the five
    buffers only: the previous frame is the object it was, the current frame
    is the image read from the canvas, and every other object of the heap is
    kept. *)
Theorem tick_pure_and_frame (p : Sliders) (ctx : CanvasRenderingContext2D)
    (s1 s2 : Closure * heap) (prev1 prev2 : ref) (frame counter : object) :
  reachable s1 -> reachable s2 ->
  cameraImage (fst s1) = Some prev1 -> cameraImage (fst s2) = Some prev2 ->
  snd s1 !! prev1 = Some frame -> snd s2 !! prev2 = Some frame ->
  snd s1 !! stateImage (fst s1) = Some counter ->
  snd s2 !! stateImage (fst s2) = Some counter ->
  (exists verdict, snd (tick p ctx s1) = Some verdict) /\
  snd (tick p ctx s1) = snd (tick p ctx s2) /\
  buffers (fst (tick p ctx s1)) = buffers (fst (tick p ctx s2)) /\
  prevCameraImage (fst (fst (tick p ctx s1))) = Some prev1 /\
  snd (fst (tick p ctx s1)) !! prev1 = Some frame /\
  (exists cur,
     cameraImage (fst (fst (tick p ctx s1))) = Some cur /\
     snd (fst (tick p ctx s1)) !! cur = Some (Grey (read new_GreyscaleImage ctx))) /\
  (forall r o,
     r <> diffImage (fst s1) -> r <> highContrastDiffImage (fst s1) ->
     r <> stateImage (fst s1) -> r <> waveMap (fst s1) ->
     r <> filteredWaveMap (fst s1) ->
     snd s1 !! r = Some o ->
     snd (fst (tick p ctx s1)) !! r = Some o).
Proof.
  intros R1 R2 C1 C2 F1 F2 T1 T2.
  destruct (reachable_inv _ R1)
    as (cam1 & bef1 & a0 & a1 & t1 & a3 & a4 & rest1 & -> & A0 & A1 & At & A3 & A4 & Hc1).
  destruct (reachable_inv _ R2)
    as (cam2 & bef2 & b0 & b1 & t2 & b3 & b4 & rest2 & -> & B0 & B1 & Bt & B3 & B4 & Hc2).
  cbn [fst snd cameraImage stateImage diffImage highContrastDiffImage waveMap
       filteredWaveMap] in *.
  subst cam1 cam2.
  destruct (Hc1 prev1 eq_refl) as (k1 & o1 & -> & K1).
  destruct (Hc2 prev2 eq_refl) as (k2 & o2 & -> & K2).
  assert (o1 = frame) as -> by (change (rest1 !! k1 = Some frame) in F1; congruence).
  assert (o2 = frame) as -> by (change (rest2 !! k2 = Some frame) in F2; congruence).
  assert (t2 = t1) as ->.
  { change (Some (Counter t1) = Some counter) in T1.
    change (Some (Counter t2) = Some counter) in T2. congruence. }
  rewrite (tick_explicit p ctx a0 a1 t1 a3 a4 rest1 bef1 k1 frame K1).
  rewrite (tick_explicit p ctx b0 b1 t1 b3 b4 rest2 bef2 k2 frame K2).
  cbv zeta.
  rewrite (updateFrom_any b0 a0 _ B0 A0), (updateFrom_any b1 a1 _ B1 A1),
    (updateFrom_any b3 a3 _ B3 A3), (updateFrom_any b4 a4 _ B4 A4).
  cbn [fst snd buffers cameraImage prevCameraImage stateImage diffImage
       highContrastDiffImage waveMap filteredWaveMap].
  split; [eexists; reflexivity|].
  split; [reflexivity|].
  split; [reflexivity|].
  split; [reflexivity|].
  split.
  { change ((rest1 ++ [Grey (read new_GreyscaleImage ctx)]) !! k1 = Some frame).
    now apply lookup_app_l_Some. }
  split.
  { eexists. split; [reflexivity|]. exact (lookup_last rest1 _). }
  intros r o N0 N1 N2 N3 N4 Hr.
  destruct r as [|[|[|[|[|j]]]]]; try congruence.
  change (rest1 !! j = Some o) in Hr.
  change ((rest1 ++ [Grey (read new_GreyscaleImage ctx)]) !! j = Some o).
  now apply lookup_app_l_Some.
Qed.

Lemma tick_pure_and_frame_witness :
  snd (fst (tick example_sliders (example_canvas 200)
              (fst (tick example_sliders (example_canvas 90) onload))))
    !! 5%nat
  = Some (Grey (mkGreyscaleImage [90; 0] 2 1)).
Proof.
  assert (R : reachable (fst (tick example_sliders (example_canvas 90) onload)))
    by apply reachable_tick, reachable_onload.
  destruct (tick_pure_and_frame example_sliders (example_canvas 200)
              (fst (tick example_sliders (example_canvas 90) onload))
              (fst (tick example_sliders (example_canvas 90) onload))
              5%nat 5%nat
              (Grey (mkGreyscaleImage [90; 0] 2 1))
              (Counter new_TransitionCountingImage)
              R R eq_refl eq_refl eq_refl eq_refl eq_refl eq_refl)
    as (_ & _ & _ & _ & H & _).
  exact H.
Defined.


(** * Further properties of the code *)

(** ** Loops that write every cell *)

Lemma store_loop_Forall (g : nat -> list Z -> Js.number) (P : Z -> Prop)
    (d : list Z) :
  (forall i d', (i < length d)%nat -> length d' = length d ->
                (forall j, (i <= j)%nat -> d' !! j = d !! j) ->
                P (Js.to_uint8_clamp (g i d'))) ->
  Forall P (for_loop (length d) (fun i d' => store d' i (g i d')) d).
Proof.
  intros Hg. apply Forall_lookup. intros i v Hv.
  assert (Hi : (i < length d)%nat).
  { apply lookup_lt_Some in Hv. now rewrite (store_loop_length g) in Hv. }
  rewrite (store_loop_done g) in Hv by assumption.
  injection Hv as <-. apply Hg; [assumption|apply store_loop_length|].
  intros j Hj. now apply store_loop_untouched.
Qed.

Lemma to_uint8_clamp_byte (v : Z) : 0 <= v <= 255 -> Js.to_uint8_clamp (Js.of_Z v) = v.
Proof. intros H. rewrite to_uint8_clamp_Z. lia. Qed.

(** The conversion never goes below an integer the value is above, nor above
    an integer the value is below. *)
Lemma to_uint8_clamp_lower (q : Q) (z : Z) :
  0 <= z <= 255 -> (inject_Z z <= q)%Q -> z <= Js.to_uint8_clamp (Js.Fin q).
Proof.
  intros Hz Hq. unfold Js.to_uint8_clamp.
  destruct (Qle_bool q 0) eqn:E0.
  { apply Qle_bool_iff in E0.
    pose proof (Qle_trans _ _ _ Hq E0) as H. change 0%Q with (inject_Z 0) in H.
    rewrite <- Zle_Qle in H. lia. }
  destruct (Qle_bool 255 q); [lia|].
  assert (Hf : z <= Qfloor q).
  { rewrite <- (Qfloor_Z z). now apply Qfloor_resp_le. }
  repeat match goal with |- context [if ?b then _ else _] => destruct b end; lia.
Qed.

Lemma to_uint8_clamp_upper (q : Q) (z : Z) :
  0 <= z <= 255 -> (q <= inject_Z z)%Q -> Js.to_uint8_clamp (Js.Fin q) <= z.
Proof.
  intros Hz Hq. unfold Js.to_uint8_clamp.
  destruct (Qle_bool q 0); [lia|].
  destruct (Qle_bool 255 q) eqn:E1.
  { apply Qle_bool_iff in E1.
    pose proof (Qle_trans _ _ _ E1 Hq) as H. change 255%Q with (inject_Z 255) in H.
    rewrite <- Zle_Qle in H. lia. }
  assert (Hf : Qfloor q <= z).
  { rewrite <- (Qfloor_Z z). now apply Qfloor_resp_le. }
  destruct (Z.eq_dec (Qfloor q) z) as [Heq|Hne].
  - (* the value is the integer itself *)
    assert (Hq' : (q == inject_Z z)%Q).
    { apply Qle_antisym; [assumption|]. rewrite <- Heq. apply Qfloor_le. }
    assert (Hh : (q < inject_Z (Qfloor q) + (1 # 2))%Q).
    { rewrite Heq, Hq'. rewrite <- (Qplus_0_r (inject_Z z)) at 1.
      apply Qplus_lt_r. reflexivity. }
    rewrite (Qlt_bool_false _ _ (Qlt_le_weak _ _ Hh)).
    apply Qlt_bool_iff in Hh. rewrite Hh. lia.
  - repeat match goal with |- context [if ?b then _ else _] => destruct b end; lia.
Qed.

(** ** More of GreyscaleImage *)

Lemma image_eq (a b : GreyscaleImage) :
  data a = data b -> width a = width b -> height a = height b -> a = b.
Proof. destruct a, b. cbn. congruence. Qed.

(** Two lists of one length with the same defined cells are equal. *)
Lemma list_eq_cells (l1 l2 : list Z) :
  length l1 = length l2 ->
  (forall i v, l2 !! i = Some v -> l1 !! i = Some v) ->
  l1 = l2.
Proof.
  intros Hlen H. apply list_eq. intros i.
  destruct (l2 !! i) as [v|] eqn:E; [now apply H|].
  apply lookup_ge_None in E. apply lookup_ge_None. lia.
Qed.

(** [updateFrom] makes [this] equal to the source. *)
Lemma updateFrom_copy (this source : GreyscaleImage) :
  well_sized this -> well_sized source -> bytes (data source) ->
  updateFrom this source = source.
Proof.
  intros Hthis Hsrc Hb. unfold updateFrom. cbv zeta.
  destruct (_setSize_spec this (width source) (height source) Hthis) as (Hws & Hw & Hh).
  set (this' := _setSize this (width source) (height source)) in *.
  assert (Hlen : length (data this') = length (data source)).
  { rewrite Hws, Hw, Hh. symmetry. exact Hsrc. }
  apply image_eq; cbn [data width height set_data]; [|assumption..].
  set (g := fun (i : nat) (_ : list Z) => Js.of_read (load (data source) (Z.of_nat i))).
  apply list_eq_cells.
  - now rewrite (store_loop_length g).
  - intros i v Hv.
    assert (Hi : (i < length (data this'))%nat).
    { rewrite Hlen. eapply lookup_lt_Some; eassumption. }
    rewrite (store_loop_done g) by assumption.
    unfold g. rewrite load_of_nat, Hv. cbn [Js.of_read]. f_equal.
    apply to_uint8_clamp_byte. eapply bytes_lookup; eassumption.
Qed.

(** X1: [updateFrom] makes [this] a copy of the source, dimensions and
    samples, whatever [this] was; a second call with the same source
    changes nothing. *)
Theorem updateFrom_copies (this source : GreyscaleImage) :
  well_sized this -> well_sized source -> bytes (data source) ->
  updateFrom this source = source /\
  updateFrom (updateFrom this source) source = updateFrom this source.
Proof.
  intros Hthis Hsrc Hb.
  pose proof (updateFrom_copy this source Hthis Hsrc Hb) as Hcopy.
  split; [exact Hcopy|].
  rewrite Hcopy. now apply updateFrom_copy.
Qed.

Lemma updateFrom_copies_witness :
  (updateFrom (mkGreyscaleImage [9; 9; 9] 3 1) (mkGreyscaleImage [1; 2; 3; 4] 2 2)
   = mkGreyscaleImage [1; 2; 3; 4] 2 2) /\
  (updateFrom (updateFrom (mkGreyscaleImage [9; 9; 9] 3 1)
                 (mkGreyscaleImage [1; 2; 3; 4] 2 2))
              (mkGreyscaleImage [1; 2; 3; 4] 2 2)
   = updateFrom (mkGreyscaleImage [9; 9; 9] 3 1) (mkGreyscaleImage [1; 2; 3; 4] 2 2)).
Proof.
  apply updateFrom_copies; first [reflexivity | repeat constructor; lia].
Defined.

(** X2: the difference is centred on 128 and keeps the sign of the change:
    for byte samples a (this) and b (other) the result is 128 exactly when
    a = b, above 128 exactly when a > b and below 128 exactly when a < b.  *)
Theorem subtract_sign (this other : GreyscaleImage) (i : nat) (a b : Z) :
  data this !! i = Some a -> data other !! i = Some b ->
  0 <= a <= 255 -> 0 <= b <= 255 ->
  exists r,
    data (subtract this other) !! i = Some r /\
    (r = 128 <-> a = b) /\ (128 < r <-> b < a) /\ (r < 128 <-> a < b).
Proof.
  intros Ha Hb Ba Bb.
  exists (Z.max 0 (Z.min 255 (a - b + 128))).
  split; [now apply subtract_lookup|]. lia.
Qed.

Lemma subtract_sign_witness :
  exists r,
    data (subtract (mkGreyscaleImage [10; 200] 2 1) (mkGreyscaleImage [30; 5] 2 1))
      !! 1%nat = Some r /\
    (r = 128 <-> 200 = 5) /\ (128 < r <-> 5 < 200) /\ (r < 128 <-> 200 < 5).
Proof.
  apply (subtract_sign (mkGreyscaleImage [10; 200] 2 1) (mkGreyscaleImage [30; 5] 2 1)
           1%nat 200 5);
    first [reflexivity | lia].
Defined.

(** X3: [subtract] does not check the dimensions.  Where the other frame
    has no sample (it is shorter than [this]) the difference is NaN and the
    cell of [this] becomes 0. *)
Theorem subtract_beyond_other (this other : GreyscaleImage) (i : nat) :
  (i < length (data this))%nat ->
  (length (data other) <= i)%nat ->
  data (subtract this other) !! i = Some 0.
Proof.
  intros Hi Ho. unfold subtract. cbn [data set_data].
  rewrite store_loop_done by assumption.
  rewrite (load_beyond (data other)) by lia.
  cbn [Js.of_read]. f_equal.
  destruct (Js.of_read _); reflexivity.
Qed.

Lemma subtract_beyond_other_witness :
  data (subtract (mkGreyscaleImage [10; 200] 2 1) (mkGreyscaleImage [30] 1 1)) !! 1%nat
  = Some 0.
Proof.
  apply subtract_beyond_other; simpl; lia.
Defined.

Lemma increaseContrast_lookup (this : GreyscaleImage) (factor : Js.number)
    (i : nat) (d : Z) :
  data this !! i = Some d ->
  data (increaseContrast this factor) !! i
  = Some (Js.to_uint8_clamp
            (Js.add (Js.of_Z d) (Js.mul (Js.sub (Js.of_Z d) (Js.of_Z 128)) factor))).
Proof.
  intros Hd. unfold increaseContrast. cbn [data set_data].
  pose proof (lookup_lt_Some _ _ _ Hd) as Hlen.
  rewrite store_loop_done by assumption.
  now rewrite load_of_nat, store_loop_untouched, Hd by lia.
Qed.

Lemma increaseContrast_length (this : GreyscaleImage) (factor : Js.number) :
  length (data (increaseContrast this factor)) = length (data this).
Proof. unfold increaseContrast. cbn [data set_data]. apply store_loop_length. Qed.

(** X4: a contrast factor of 0 changes nothing. *)
Theorem increaseContrast_zero (this : GreyscaleImage) :
  bytes (data this) -> increaseContrast this (Js.of_Z 0) = this.
Proof.
  intros Hb. apply image_eq; [|reflexivity..].
  apply list_eq_cells; [apply increaseContrast_length|].
  intros i v Hv. rewrite (increaseContrast_lookup _ _ _ _ Hv). f_equal.
  cbn [Js.of_Z Js.sub Js.mul Js.add].
  rewrite (to_uint8_clamp_of_Qeq_Z _ v) by Qint.
  pose proof (bytes_lookup _ _ _ Hb Hv). lia.
Qed.

Lemma increaseContrast_zero_witness :
  increaseContrast (mkGreyscaleImage [0; 100; 128; 255] 2 2) (Js.of_Z 0)
  = mkGreyscaleImage [0; 100; 128; 255] 2 2.
Proof. apply increaseContrast_zero. repeat constructor; lia. Defined.

(** The contrast formula on a byte [d] with a factor [n # m]. *)
Lemma contrast_value_ge (d : Z) (q : Q) :
  (0 <= q)%Q -> 128 <= d ->
  (inject_Z d <= inject_Z d + (inject_Z d - inject_Z 128) * q)%Q.
Proof.
  destruct q as [n m]. intros Hq Hd. Qraw. nia.
Qed.

Lemma contrast_value_le (d : Z) (q : Q) :
  (0 <= q)%Q -> d <= 128 ->
  (inject_Z d + (inject_Z d - inject_Z 128) * q <= inject_Z d)%Q.
Proof.
  destruct q as [n m]. intros Hq Hd. Qraw. nia.
Qed.

(** X5: with a factor that is not negative, [increaseContrast] moves a
    sample away from 128 or keeps it, and never across 128: a sample of at
    least 128 does not decrease, a sample of at most 128 does not increase
    (so 128 stays 128). *)
Theorem increaseContrast_away_from_128 (this : GreyscaleImage) (q : Q) (i : nat) (d : Z) :
  (0 <= q)%Q ->
  data this !! i = Some d -> 0 <= d <= 255 ->
  exists r,
    data (increaseContrast this (Js.Fin q)) !! i = Some r /\
    (128 <= d -> d <= r) /\ (d <= 128 -> r <= d).
Proof.
  intros Hq Hd Bd. eexists. split; [exact (increaseContrast_lookup _ _ _ _ Hd)|].
  cbn [Js.of_Z Js.sub Js.mul Js.add]. split; intros H.
  - apply to_uint8_clamp_lower; [assumption|now apply contrast_value_ge].
  - apply to_uint8_clamp_upper; [assumption|now apply contrast_value_le].
Qed.

Lemma increaseContrast_away_from_128_witness :
  exists r,
    data (increaseContrast (mkGreyscaleImage [100; 128; 130] 3 1) (Js.Fin (3 # 2)))
      !! 2%nat = Some r /\
    (128 <= 130 -> 130 <= r) /\ (130 <= 128 -> r <= 130).
Proof.
  apply (increaseContrast_away_from_128 (mkGreyscaleImage [100; 128; 130] 3 1)
           (3 # 2) 2%nat 130);
    first [reflexivity | lia | unfold Qle; simpl; lia].
Defined.

(** X6: from a factor of 127 on, the contrast step is a three-level
    quantiser: every sample above 128 becomes 255, every sample below 128
    becomes 0, and 128 stays. *)
Theorem increaseContrast_saturates (this : GreyscaleImage) (q : Q) (i : nat) (d : Z) :
  (127 <= q)%Q ->
  data this !! i = Some d -> 0 <= d <= 255 ->
  data (increaseContrast this (Js.Fin q)) !! i
  = Some (if 128 <? d then 255 else if d <? 128 then 0 else 128).
Proof.
  intros Hq Hd Bd. rewrite (increaseContrast_lookup _ _ _ _ Hd). f_equal.
  cbn [Js.of_Z Js.sub Js.mul Js.add].
  set (v := (inject_Z d + (inject_Z d - inject_Z 128) * q)%Q).
  pose proof (to_uint8_clamp_range (Js.Fin v)) as Hr.
  destruct q as [n m].
  destruct (Z.ltb_spec 128 d) as [Hhi|Hhi].
  - assert (255 <= Js.to_uint8_clamp (Js.Fin v)); [|lia].
    apply to_uint8_clamp_lower; [lia|]. unfold v. clear Hr v. Qraw. nia.
  - destruct (Z.ltb_spec d 128) as [Hlo|Hlo].
    + assert (Js.to_uint8_clamp (Js.Fin v) <= 0); [|lia].
      apply to_uint8_clamp_upper; [lia|]. unfold v. clear Hr v. Qraw. nia.
    + assert (d = 128) as -> by lia.
      rewrite (to_uint8_clamp_of_Qeq_Z v 128); [reflexivity|].
      unfold v. clear Hr v. Qraw. lia.
Qed.

Lemma increaseContrast_saturates_witness :
  data (increaseContrast (mkGreyscaleImage [100; 128; 130] 3 1) (Js.of_Z 127)) !! 0%nat
  = Some (if 128 <? 100 then 255 else if 100 <? 128 then 0 else 128).
Proof.
  apply (increaseContrast_saturates (mkGreyscaleImage [100; 128; 130] 3 1)
           (inject_Z 127) 0%nat 100);
    first [reflexivity | lia | unfold Qle; simpl; lia].
Defined.

Lemma toBinary_length (this : GreyscaleImage) (t : Js.number) :
  length (data (toBinary this t)) = length (data this).
Proof. unfold toBinary. cbn [data set_data]. apply store_loop_length. Qed.

Lemma toBinary_bytes (this : GreyscaleImage) (t : Js.number) :
  bytes (data this) -> bytes (data (toBinary this t)).
Proof.
  intros H. unfold toBinary. cbn [data set_data].
  set (g := fun (i : nat) (d : list Z) =>
              Js.add (Js.of_read (load d (Z.of_nat i)))
                (Js.mul (Js.add (Js.sub (Js.of_read (load d (Z.of_nat i))) t) (Js.of_Z 1))
                        (Js.of_Z 255))).
  now apply (store_loop_bytes g).
Qed.

(** X7: [toBinary] with an integer threshold is idempotent: a second pass
    with the same threshold changes nothing (the sample left at
    threshold - 1 by the first pass is left there again). *)
Theorem toBinary_idempotent (this : GreyscaleImage) (t : Z) :
  bytes (data this) ->
  toBinary (toBinary this (Js.of_Z t)) (Js.of_Z t) = toBinary this (Js.of_Z t).
Proof.
  intros Hb. apply image_eq; [|reflexivity..].
  apply list_eq_cells; [apply toBinary_length|].
  intros i v Hv.
  assert (Hi : (i < length (data this))%nat).
  { apply lookup_lt_Some in Hv. now rewrite toBinary_length in Hv. }
  destruct (lookup_lt_is_Some_2 (data this) i Hi) as [d Hd].
  pose proof (bytes_lookup _ _ _ Hb Hd) as Bd.
  rewrite (toBinary_lookup this t i d Hd Bd) in Hv. injection Hv as Hv.
  pose proof (toBinary_lookup this t i d Hd Bd) as H1.
  rewrite Hv in H1.
  assert (Bv : 0 <= v <= 255).
  { eapply bytes_lookup; [|exact H1]. now apply toBinary_bytes. }
  rewrite (toBinary_lookup _ t i v H1 Bv). f_equal.
  destruct (Z.leb_spec t d); destruct (Z.eqb_spec d (t - 1));
    destruct (Z.leb_spec t v); destruct (Z.eqb_spec v (t - 1)); lia.
Qed.

Lemma toBinary_idempotent_witness :
  toBinary (toBinary (mkGreyscaleImage [0; 126; 127; 128; 255] 5 1) (Js.of_Z 128))
           (Js.of_Z 128)
  = toBinary (mkGreyscaleImage [0; 126; 127; 128; 255] 5 1) (Js.of_Z 128).
Proof. apply toBinary_idempotent. repeat constructor; lia. Defined.

(** ** pixelSum *)

Lemma pixelSum_fold (l : list Z) (a : Z) :
  fold_left (fun a b => a + b) l a = a + fold_left (fun a b => a + b) l 0.
Proof.
  revert a. induction l as [|x l IH]; intros a; cbn [fold_left]; [lia|].
  rewrite (IH (a + x)), (IH (0 + x)). lia.
Qed.

Lemma pixelSum_cons (x : Z) (l : list Z) (w h w' h' : Z) :
  pixelSum (mkGreyscaleImage (x :: l) w h) = x + pixelSum (mkGreyscaleImage l w' h').
Proof. unfold pixelSum. cbn. apply pixelSum_fold. Qed.

Lemma pixelSum_bounds (l : list Z) (w h : Z) :
  bytes l ->
  0 <= pixelSum (mkGreyscaleImage l w h) <= 255 * Z.of_nat (length l) /\
  (pixelSum (mkGreyscaleImage l w h) = 0 <-> Forall (fun v => v = 0) l).
Proof.
  induction 1 as [|x l Hx Hl IH].
  - cbn. split; [lia|]. split; [constructor|reflexivity].
  - rewrite (pixelSum_cons x l w h w h). destruct IH as [IHb IHz].
    cbn [length]. split; [lia|].
    rewrite Forall_cons, <- IHz. lia.
Qed.

(** X8: the sum of a byte image lies between 0 and 255 times the number of
    cells, and it is 0 exactly when every cell is 0: the test
    [pixelSum() > 0] of the tick asks whether some pixel is set. *)
Theorem pixelSum_zero_iff (this : GreyscaleImage) :
  bytes (data this) ->
  0 <= pixelSum this <= 255 * Z.of_nat (length (data this)) /\
  (pixelSum this = 0 <-> Forall (fun v => v = 0) (data this)) /\
  ((0 <? pixelSum this) = true <-> exists i v, data this !! i = Some v /\ v <> 0).
Proof.
  intros Hb. destruct this as [l w h]. cbn [data].
  destruct (pixelSum_bounds l w h Hb) as [Hbd Hz].
  split; [assumption|]. split; [assumption|].
  rewrite Z.ltb_lt. split.
  - intros Hpos.
    destruct (decide (Forall (fun v => v = 0) l)) as [Hall|Hex].
    + apply Hz in Hall. lia.
    + apply not_Forall_Exists in Hex; [|intros x; apply _].
      apply Exists_exists in Hex as (v & Hin & Hv).
      apply list_elem_of_lookup in Hin as [i Hi]. eauto.
  - intros (i & v & Hi & Hv).
    assert (pixelSum (mkGreyscaleImage l w h) <> 0); [|lia].
    intros H0. apply Hz in H0.
    exact (Hv (proj1 (Forall_lookup _ l) H0 i v Hi)).
Qed.

Lemma pixelSum_zero_iff_witness :
  0 <= pixelSum (mkGreyscaleImage [0; 255; 0; 7] 2 2) <= 255 * Z.of_nat 4 /\
  (pixelSum (mkGreyscaleImage [0; 255; 0; 7] 2 2) = 0
   <-> Forall (fun v => v = 0) [0; 255; 0; 7]) /\
  ((0 <? pixelSum (mkGreyscaleImage [0; 255; 0; 7] 2 2)) = true
   <-> exists i v, [0; 255; 0; 7] !! i = Some v /\ v <> 0).
Proof.
  apply (pixelSum_zero_iff (mkGreyscaleImage [0; 255; 0; 7] 2 2)).
  repeat constructor; lia.
Defined.

(** ** More of discardOutliers *)

Lemma discardOutliers_length (this : GreyscaleImage) (thr : Js.number) :
  length (data (discardOutliers this thr)) = length (data this).
Proof. unfold discardOutliers. cbn [data set_data]. apply store_loop_length. Qed.

(** X9: whatever the frame held and whatever the threshold, the result of
    [discardOutliers] is a binary image of the same dimensions: every cell
    is 0 or 255. *)
Theorem discardOutliers_binary (this : GreyscaleImage) (thr : Js.number) :
  Forall (fun v => v = 0 \/ v = 255) (data (discardOutliers this thr)) /\
  length (data (discardOutliers this thr)) = length (data this) /\
  width (discardOutliers this thr) = width this /\
  height (discardOutliers this thr) = height this.
Proof.
  split; [|split; [apply discardOutliers_length|split; reflexivity]].
  unfold discardOutliers. cbn [data set_data].
  set (g := fun (i : nat) (d : list Z) =>
              if Js.ge (neighbourSum d (width this) (Z.of_nat i))
                       (Js.mul thr (Js.of_Z 255))
              then Js.of_Z 255 else Js.of_Z 0).
  apply (store_loop_Forall g). intros i d' _ _ _. unfold g.
  destruct (Js.ge _ _); [right|left]; reflexivity.
Qed.

Lemma all_zero_pixelSum (this : GreyscaleImage) :
  Forall (fun v => v = 0) (data this) -> pixelSum this = 0.
Proof.
  intros H. destruct this as [l w h]. cbn [data] in H.
  apply pixelSum_bounds; [|assumption].
  eapply Forall_impl; [exact H|]. cbn. intros x ->. lia.
Qed.

(** X10: the band [discardOutliers] always blacks out is one cell longer
    than a row at each end of the buffer: a cell at index [i <= width] or
    with [i + width + 1 >= length] becomes 0 for every threshold, NaN
    included.  A frame of at most [2 * width + 2] cells (for one, any frame
    of one or two rows) therefore comes out all black, with pixelSum 0. *)
Theorem discardOutliers_border_band (this : GreyscaleImage) (thr : Js.number) :
  0 <= width this ->
  (forall i, (i < length (data this))%nat ->
     Z.of_nat i <= width this \/
     Z.of_nat (length (data this)) <= Z.of_nat i + width this + 1 ->
     data (discardOutliers this thr) !! i = Some 0) /\
  (Z.of_nat (length (data this)) <= 2 * width this + 2 ->
     Forall (fun v => v = 0) (data (discardOutliers this thr)) /\
     pixelSum (discardOutliers this thr) = 0).
Proof.
  intros Hw.
  assert (Hband : forall i, (i < length (data this))%nat ->
     Z.of_nat i <= width this \/
     Z.of_nat (length (data this)) <= Z.of_nat i + width this + 1 ->
     data (discardOutliers this thr) !! i = Some 0).
  { intros i Hi Hend.
    destruct (discardOutliers_lookup this thr i Hi) as (d & Hlen & _ & _ & ->).
    assert (HNaN : neighbourSum d (width this) (Z.of_nat i) = Js.NaN).
    { destruct Hend as [Hfirst|Hlast].
      - apply neighbourSum_NaN_above, load_negative. lia.
      - apply neighbourSum_NaN_below, load_beyond. lia. }
    now rewrite HNaN. }
  split; [exact Hband|].
  intros Hsmall.
  assert (Hall : Forall (fun v => v = 0) (data (discardOutliers this thr))).
  { apply Forall_lookup. intros i v Hv.
    assert (Hi : (i < length (data this))%nat).
    { apply lookup_lt_Some in Hv. now rewrite discardOutliers_length in Hv. }
    rewrite Hband in Hv by (assumption || lia). congruence. }
  split; [assumption|now apply all_zero_pixelSum].
Qed.

Lemma discardOutliers_border_band_witness :
  (forall i, (i < 6)%nat ->
     Z.of_nat i <= 3 \/ Z.of_nat 6 <= Z.of_nat i + 3 + 1 ->
     data (discardOutliers (mkGreyscaleImage [255; 255; 255; 255; 255; 255] 3 2)
             (Js.of_Z 0)) !! i = Some 0) /\
  (Z.of_nat 6 <= 2 * 3 + 2 ->
     Forall (fun v => v = 0)
       (data (discardOutliers (mkGreyscaleImage [255; 255; 255; 255; 255; 255] 3 2)
                (Js.of_Z 0))) /\
     pixelSum (discardOutliers (mkGreyscaleImage [255; 255; 255; 255; 255; 255] 3 2)
                 (Js.of_Z 0)) = 0).
Proof.
  apply (discardOutliers_border_band
           (mkGreyscaleImage [255; 255; 255; 255; 255; 255] 3 2) (Js.of_Z 0)).
  simpl. lia.
Defined.

(** X11: the neighbourhood sum is at most 9 * 255, so a threshold above 9
    blacks out every cell of a byte image, and the pixelSum is 0. *)
Theorem discardOutliers_above_nine (this : GreyscaleImage) (q : Q) :
  bytes (data this) -> 0 <= width this -> (9 < q)%Q ->
  Forall (fun v => v = 0) (data (discardOutliers this (Js.Fin q))) /\
  pixelSum (discardOutliers this (Js.Fin q)) = 0.
Proof.
  intros Hb Hw Hq.
  assert (Hall : Forall (fun v => v = 0) (data (discardOutliers this (Js.Fin q)))).
  2: { split; [assumption|now apply all_zero_pixelSum]. }
  apply Forall_lookup. intros i v Hv.
  assert (Hi : (i < length (data this))%nat).
  { apply lookup_lt_Some in Hv. now rewrite discardOutliers_length in Hv. }
  destruct (discardOutliers_lookup this (Js.Fin q) i Hi) as (d & Hlen & Hbd & _ & Hcell).
  specialize (Hbd Hb). rewrite Hcell in Hv. injection Hv as <-.
  destruct (neighbourSum d (width this) (Z.of_nat i)) as [|s] eqn:Hs; [reflexivity|].
  destruct (Z_lt_le_dec (Z.of_nat i - width this - 1) 0) as [Hlo|Hlo].
  { rewrite neighbourSum_NaN_above in Hs by (apply load_negative; lia). discriminate. }
  destruct (Z_lt_le_dec (Z.of_nat i + width this + 1) (Z.of_nat (length d))) as [Hhi|Hhi].
  2: { rewrite neighbourSum_NaN_below in Hs by (apply load_beyond; lia). discriminate. }
  destruct (neighbourSum_inside d (width this) (Z.of_nat i))
    as (v1 & v2 & v3 & v4 & v5 & v6 & v7 & v8 & v9 &
        H1 & H2 & H3 & H4 & H5 & H6 & H7 & H8 & H9 & Hsum); [lia..|].
  rewrite Hsum in Hs. injection Hs as <-.
  pose proof (load_bytes _ _ _ Hbd H1). pose proof (load_bytes _ _ _ Hbd H2).
  pose proof (load_bytes _ _ _ Hbd H3). pose proof (load_bytes _ _ _ Hbd H4).
  pose proof (load_bytes _ _ _ Hbd H5). pose proof (load_bytes _ _ _ Hbd H6).
  pose proof (load_bytes _ _ _ Hbd H7). pose proof (load_bytes _ _ _ Hbd H8).
  pose proof (load_bytes _ _ _ Hbd H9).
  assert (Hlt : Js.ge (Js.of_Z (v1 + v2 + v3 + v4 + v5 + v6 + v7 + v8 + v9))
                      (Js.mul (Js.Fin q) (Js.of_Z 255)) = false).
  { unfold Js.ge, Js.mul, Js.of_Z. apply Qle_bool_false.
    apply Qle_lt_trans with (inject_Z (9 * 255)); [rewrite <- Zle_Qle; lia|].
    change (inject_Z (9 * 255)) with (9 * inject_Z 255)%Q.
    apply Qmult_lt_compat_r; [reflexivity|assumption]. }
  unfold Js.ge, Js.mul, Js.of_Z in Hlt |- *. now rewrite Hlt.
Qed.

Lemma discardOutliers_above_nine_witness :
  Forall (fun v => v = 0)
    (data (discardOutliers
             (mkGreyscaleImage [255; 255; 255; 255; 255; 255; 255; 255; 255] 3 3)
             (Js.of_Z 10))) /\
  pixelSum (discardOutliers
              (mkGreyscaleImage [255; 255; 255; 255; 255; 255; 255; 255; 255] 3 3)
              (Js.of_Z 10)) = 0.
Proof.
  apply (discardOutliers_above_nine
           (mkGreyscaleImage [255; 255; 255; 255; 255; 255; 255; 255; 255] 3 3)
           (inject_Z 10));
    first [ repeat constructor; lia | simpl; lia | reflexivity ].
Defined.

(** X12: a threshold of 0 or less lets every cell through: any cell whose
    nine reads fall inside the buffer becomes 255, whatever the frame held,
    so the filter then reports white even on a black frame. *)
Theorem discardOutliers_threshold_zero (this : GreyscaleImage) (q : Q) (i : nat) :
  bytes (data this) -> (q <= 0)%Q ->
  0 <= width this ->
  width this + 1 <= Z.of_nat i ->
  Z.of_nat i + width this + 1 < Z.of_nat (length (data this)) ->
  data (discardOutliers this (Js.Fin q)) !! i = Some 255.
Proof.
  intros Hb Hq Hw Hlo Hhi.
  destruct (discardOutliers_lookup this (Js.Fin q) i) as (d & Hlen & Hbd & _ & ->); [lia|].
  specialize (Hbd Hb).
  destruct (neighbourSum_inside d (width this) (Z.of_nat i))
    as (v1 & v2 & v3 & v4 & v5 & v6 & v7 & v8 & v9 &
        H1 & H2 & H3 & H4 & H5 & H6 & H7 & H8 & H9 & ->); [lia..|].
  pose proof (load_bytes _ _ _ Hbd H1). pose proof (load_bytes _ _ _ Hbd H2).
  pose proof (load_bytes _ _ _ Hbd H3). pose proof (load_bytes _ _ _ Hbd H4).
  pose proof (load_bytes _ _ _ Hbd H5). pose proof (load_bytes _ _ _ Hbd H6).
  pose proof (load_bytes _ _ _ Hbd H7). pose proof (load_bytes _ _ _ Hbd H8).
  pose proof (load_bytes _ _ _ Hbd H9).
  assert (Hge : Js.ge (Js.of_Z (v1 + v2 + v3 + v4 + v5 + v6 + v7 + v8 + v9))
                      (Js.mul (Js.Fin q) (Js.of_Z 255)) = true).
  { unfold Js.ge, Js.mul, Js.of_Z. apply Qle_bool_iff.
    apply Qle_trans with 0%Q.
    - destruct q as [n m]. Qraw. nia.
    - change 0%Q with (inject_Z 0). rewrite <- Zle_Qle. lia. }
  now rewrite Hge.
Qed.

Lemma discardOutliers_threshold_zero_witness :
  data (discardOutliers (mkGreyscaleImage [0; 0; 0; 0; 0; 0; 0; 0; 0] 3 3) (Js.of_Z 0))
    !! 4%nat
  = Some 255.
Proof.
  apply (discardOutliers_threshold_zero
           (mkGreyscaleImage [0; 0; 0; 0; 0; 0; 0; 0; 0] 3 3) (inject_Z 0) 4%nat);
    first [ repeat constructor; lia | simpl; lia | unfold Qle; simpl; lia ].
Defined.

(** ** More of TransitionCountingImage *)

(** X13: a source whose dimensions differ from the counter's restarts the
    counter: the call behaves as the first call on a new counter, nothing
    of the old counts, expectations and timers survives. *)
Theorem update_restarts_on_resize (t : TransitionCountingImage)
    (source : GreyscaleImage) (mi : Js.number) :
  width source <> width (base t) \/ height source <> height (base t) ->
  update t source mi = update new_TransitionCountingImage source mi.
Proof.
  intros Hne.
  assert (E : update_resize t source = update_resize new_TransitionCountingImage source).
  { unfold update_resize, _setSize.
    assert (Ht : negb (width source =? width (base t))
                 || negb (height source =? height (base t)) = true).
    { destruct (Z.eqb_spec (width source) (width (base t)));
        destruct (Z.eqb_spec (height source) (height (base t))); cbn; try reflexivity.
      destruct Hne; contradiction. }
    rewrite Ht. cbn [base width height new_TransitionCountingImage new_GreyscaleImage].
    destruct (Z.eqb_spec (width source) 0) as [Hw|Hw];
      destruct (Z.eqb_spec (height source) 0) as [Hh|Hh]; cbn [negb orb];
      try reflexivity.
    rewrite Hw, Hh. reflexivity. }
  unfold update. cbv zeta. now rewrite E.
Qed.

Lemma update_restarts_on_resize_witness :
  update (updates new_TransitionCountingImage
            [(pixel_frame 0, Js.of_Z 10); (pixel_frame 255, Js.of_Z 10)])
         (mkGreyscaleImage [255; 7] 2 1) (Js.of_Z 10)
  = update new_TransitionCountingImage (mkGreyscaleImage [255; 7] 2 1) (Js.of_Z 10).
Proof.
  apply update_restarts_on_resize. left. simpl. lia.
Defined.

(** X14: whatever the calls, after a call of [update] the counter has the
    dimensions of that call's source and its three arrays hold width times
    height bytes each. *)
Theorem update_shape (calls : list (GreyscaleImage * Js.number))
    (source : GreyscaleImage) (mi : Js.number) :
  let t := update (updates new_TransitionCountingImage calls) source mi in
  width (base t) = width source /\ height (base t) = height source /\
  length (data (base t)) = Z.to_nat (width source * height source) /\
  length (nextExpected t) = Z.to_nat (width source * height source) /\
  length (txTimer t) = Z.to_nat (width source * height source) /\
  bytes (data (base t)) /\ bytes (nextExpected t) /\ bytes (txTimer t).
Proof.
  intros t.
  assert (Hok : counter_ok t).
  { apply counter_ok_update, counter_ok_updates, counter_ok_new. }
  destruct (update_dims (updates new_TransitionCountingImage calls) source mi) as [Hw Hh].
  fold t in Hw, Hh. destruct Hok as [Hs Hc He Ht Le Lt].
  unfold well_sized in Hs. rewrite Hw, Hh in Hs.
  repeat split; try assumption; try congruence.
  eapply Forall_impl; [exact He|]. cbn. intros x [->| ->]; lia.
Qed.

(** X15: the pixels do not interact: what a call makes of pixel [i] depends
    only on that pixel's cells (after the dimension check) and on the
    source's sample at [i]. *)
Theorem update_is_pixelwise (t1 t2 : TransitionCountingImage)
    (s1 s2 : GreyscaleImage) (mi : Js.number) (i : nat) (st : Z * Z * Z) :
  pixel (update_resize t1 s1) i = defined st ->
  pixel (update_resize t2 s2) i = defined st ->
  data s1 !! i = data s2 !! i ->
  pixel (update t1 s1 mi) i = pixel (update t2 s2 mi) i.
Proof.
  intros H1 H2 Hs.
  rewrite (update_pixelwise t1 s1 mi i st H1), (update_pixelwise t2 s2 mi i st H2).
  now rewrite Hs.
Qed.

Lemma update_is_pixelwise_witness :
  pixel (update (updates new_TransitionCountingImage
                   [(mkGreyscaleImage [0; 255] 2 1, Js.of_Z 10)])
                (mkGreyscaleImage [255; 255] 2 1) (Js.of_Z 10)) 0%nat
  = pixel (update (updates new_TransitionCountingImage
                     [(mkGreyscaleImage [0; 0] 2 1, Js.of_Z 10)])
                  (mkGreyscaleImage [255; 0] 2 1) (Js.of_Z 10)) 0%nat.
Proof.
  apply (update_is_pixelwise _ _ _ _ _ _ (1, 255, 0)); reflexivity.
Defined.

(** X16: a source sample that is neither 0 nor 255 (or is missing) never
    starts a count: an Idle pixel is left exactly as it was. *)
Theorem update_ignores_grey (t : TransitionCountingImage) (source : GreyscaleImage)
    (mi : Js.number) (i : nat) (e tm : Z) :
  pixel (update_resize t source) i = defined (0, e, tm) ->
  data source !! i <> Some 0 -> data source !! i <> Some 255 ->
  pixel (update t source mi) i = defined (0, e, tm).
Proof.
  intros Hp H0 H255. rewrite (update_pixelwise t source mi i _ Hp).
  unfold pixel_step. cbn [Z.eqb].
  destruct (data source !! i) as [v|]; cbn [Js.loose_eq]; [|reflexivity].
  destruct (Z.eqb_spec v 0) as [->|_]; [congruence|].
  destruct (Z.eqb_spec v 255) as [->|_]; [congruence|reflexivity].
Qed.

Lemma update_ignores_grey_witness :
  pixel (update new_TransitionCountingImage (mkGreyscaleImage [128; 0] 2 1) (Js.of_Z 10))
    0%nat
  = defined (0, 0, 0).
Proof.
  apply update_ignores_grey; first [reflexivity | discriminate].
Defined.

Lemma pixel_step_count_le (srcPixel : option Z) (mi : Js.number) (c e tm : Z) :
  0 <= c -> fst (fst (pixel_step srcPixel mi (c, e, tm))) <= c + 1.
Proof.
  intros Hc. unfold pixel_step, clamp.
  repeat match goal with |- context [if ?b then _ else _] => destruct b end;
    cbn [fst]; lia.
Qed.

Lemma update_length (t : TransitionCountingImage) (source : GreyscaleImage)
    (mi : Js.number) :
  length (data (base (update t source mi)))
  = length (data (base (update_resize t source))).
Proof.
  unfold update. cbv zeta. set (t0 := update_resize t source).
  apply (for_loop_inv (update_pixel source mi)
           (fun t' => length (data (base t')) = length (data (base t0))));
    [reflexivity|].
  intros j t' _ H. rewrite <- H. unfold update_pixel. cbv zeta.
  repeat match goal with |- context [if ?b then _ else _] => destruct b end;
    cbn [base data set_count set_nextExpected set_txTimer set_data];
    rewrite ?length_store; reflexivity.
Qed.

Lemma update_count_le (t : TransitionCountingImage) (source : GreyscaleImage)
    (mi : Js.number) (n : Z) :
  counter_ok t -> 0 <= n ->
  Forall (fun c => c <= n) (data (base t)) ->
  Forall (fun c => c <= n + 1) (data (base (update t source mi))).
Proof.
  intros Hok Hn Hle.
  assert (Hok0 : counter_ok (update_resize t source)) by now apply counter_ok_resize.
  assert (Hle0 : Forall (fun c => c <= n) (data (base (update_resize t source)))).
  { unfold update_resize, _setSize.
    destruct (negb (width source =? width (base t))
              || negb (height source =? height (base t))); [|assumption].
    cbn [base data]. apply Forall_replicate. lia. }
  apply Forall_lookup. intros i c' Hc'.
  assert (Hi : (i < length (data (base (update_resize t source))))%nat).
  { apply lookup_lt_Some in Hc'. now rewrite update_length in Hc'. }
  destruct (lookup_lt_is_Some_2 _ _ Hi) as [c Hc].
  destruct (counter_ok_pixel_defined _ i c Hok0 Hc) as (e & tm & Hp & Bc & _ & _).
  pose proof (proj1 (Forall_lookup _ _) Hle0 i c Hc) as Hcn.
  pose proof (update_pixelwise t source mi i _ Hp) as Hstep.
  pose proof (pixel_step_count_le (data source !! i) mi c e tm ltac:(lia)) as Hs.
  destruct (pixel_step (data source !! i) mi (c, e, tm)) as [[c1 e1] tm1].
  cbn [fst] in Hs. unfold pixel, defined in Hstep. injection Hstep as Hc1 _ _.
  rewrite Hc1 in Hc'. injection Hc' as <-. cbn beta in *. lia.
Qed.

Lemma updates_snoc (t : TransitionCountingImage)
    (calls : list (GreyscaleImage * Js.number)) (s : GreyscaleImage) (mi : Js.number) :
  updates t (calls ++ [(s, mi)]) = update (updates t calls) s mi.
Proof. unfold updates. now rewrite fold_left_app. Qed.

(** X17: a call counts at most one transition per pixel: after n calls on a
    new counter, with any sources and intervals, no count exceeds n. *)
Theorem count_at_most_calls (calls : list (GreyscaleImage * Js.number)) :
  Forall (fun c => c <= Z.of_nat (length calls))
         (data (base (updates new_TransitionCountingImage calls))).
Proof.
  induction calls as [|[s mi] calls IH] using rev_ind; [constructor|].
  rewrite updates_snoc, length_app. cbn [length].
  replace (Z.of_nat (length calls + 1)) with (Z.of_nat (length calls) + 1) by lia.
  apply update_count_le; [|lia|exact IH].
  apply counter_ok_updates, counter_ok_new.
Qed.

Lemma gt_of_Z (a b : Z) : Js.gt (Js.of_Z a) (Js.of_Z b) = (b <? a).
Proof.
  unfold Js.gt, Js.Qlt_bool, Js.of_Z, Qle_bool, inject_Z. cbn [Qnum Qden].
  rewrite !Z.mul_1_r.
  destruct (Z.leb_spec a b); destruct (Z.ltb_spec b a); cbn; lia || reflexivity.
Qed.

(** An Active pixel that is not shown the value it expects keeps its count
    while its timer stays within the interval. *)
Lemma pixel_run_waits (src : option Z) (m c e : Z) (k : nat) (tm : Z) :
  c <> 0 -> Js.loose_eq src (Some e) = false ->
  0 <= tm -> tm + Z.of_nat k <= m -> m <= 254 ->
  pixel_run (c, e, tm) (replicate k (src, Js.of_Z m)) = (c, e, tm + Z.of_nat k).
Proof.
  intros Hc Hsrc. revert tm. induction k as [|k IH]; intros tm H0 Hk Hm.
  { cbn. f_equal. lia. }
  cbn [replicate pixel_run fold_left fst snd].
  assert (Hstep : pixel_step src (Js.of_Z m) (c, e, tm) = (c, e, tm + 1)).
  { unfold pixel_step. destruct (Z.eqb_spec c 0); [contradiction|].
    assert (Hcl : clamp (tm + 1) = tm + 1) by (unfold clamp; lia).
    rewrite Hcl, gt_of_Z, Hsrc.
    destruct (Z.ltb_spec m (tm + 1)); [lia|reflexivity]. }
  rewrite Hstep. fold (pixel_run (c, e, tm + 1) (replicate k (src, Js.of_Z m))).
  rewrite IH by lia. f_equal. lia.
Qed.

Lemma pixel_step_stale (src : option Z) (m c e : Z) :
  c <> 0 -> 0 <= m <= 254 ->
  pixel_step src (Js.of_Z m) (c, e, m) = (0, e, m + 1).
Proof.
  intros Hc Hm. unfold pixel_step. destruct (Z.eqb_spec c 0); [contradiction|].
  assert (Hcl : clamp (m + 1) = m + 1) by (unfold clamp; lia).
  rewrite Hcl, gt_of_Z. destruct (Z.ltb_spec m (m + 1)); [reflexivity|lia].
Qed.

(** X18: the staleness rule for an integer maxInterval m between 0 and 254.
    A pixel that has just counted a transition (timer 0) and is then shown a
    value other than the one it expects keeps its count through m calls, the
    timer counting them, and is reset to count 0 by call m + 1. *)
Theorem stale_after_interval (t : TransitionCountingImage) (gap : list GreyscaleImage)
    (m : Z) (i : nat) (c e v : Z) :
  0 <= m <= 254 -> 0 < c -> v <> e ->
  pixel t i = defined (c, e, 0) ->
  Forall (same_dims (width (base t)) (height (base t))) gap ->
  Forall (fun s => data s !! i = Some v) gap ->
  (Z.of_nat (length gap) <= m ->
   pixel (updates t (map (fun s => (s, Js.of_Z m)) gap)) i
   = defined (c, e, Z.of_nat (length gap))) /\
  (Z.of_nat (length gap) = m + 1 ->
   pixel (updates t (map (fun s => (s, Js.of_Z m)) gap)) i = defined (0, e, m + 1)).
Proof.
  intros Hm Hc Hv Hp Hd Hgap.
  assert (Hsrc : Js.loose_eq (Some v) (Some e) = false).
  { cbn. now apply Z.eqb_neq. }
  rewrite (updates_pixel _ t i _ (same_dims_calls _ _ gap (Js.of_Z m) Hd) Hp).
  rewrite (constant_inputs gap (Js.of_Z m) i v Hgap).
  split; intros Hlen.
  - rewrite (pixel_run_waits (Some v) m c e (length gap) 0) by (assumption || lia).
    reflexivity.
  - assert (Hk : length gap = S (Z.to_nat m)) by lia.
    rewrite Hk.
    replace (S (Z.to_nat m)) with (Z.to_nat m + 1)%nat by lia.
    rewrite replicate_add. unfold pixel_run. rewrite fold_left_app.
    fold (pixel_run (c, e, 0) (replicate (Z.to_nat m) (Some v, Js.of_Z m))).
    rewrite (pixel_run_waits (Some v) m c e (Z.to_nat m) 0) by (assumption || lia).
    cbn [replicate fold_left fst snd].
    replace (0 + Z.of_nat (Z.to_nat m)) with m by lia.
    rewrite pixel_step_stale by lia. reflexivity.
Qed.

Lemma stale_after_interval_witness :
  (Z.of_nat (length (replicate 3 (pixel_frame 128))) <= 2 ->
   pixel (updates (update new_TransitionCountingImage (pixel_frame 255) (Js.of_Z 2))
            (map (fun s => (s, Js.of_Z 2)) (replicate 3 (pixel_frame 128)))) 0%nat
   = defined (1, 0, Z.of_nat (length (replicate 3 (pixel_frame 128))))) /\
  (Z.of_nat (length (replicate 3 (pixel_frame 128))) = 2 + 1 ->
   pixel (updates (update new_TransitionCountingImage (pixel_frame 255) (Js.of_Z 2))
            (map (fun s => (s, Js.of_Z 2)) (replicate 3 (pixel_frame 128)))) 0%nat
   = defined (0, 0, 2 + 1)).
Proof.
  apply (stale_after_interval
           (update new_TransitionCountingImage (pixel_frame 255) (Js.of_Z 2))
           (replicate 3 (pixel_frame 128)) 2 0%nat 1 0 128);
    first [ reflexivity | lia | repeat constructor ].
Defined.

(** ** More of the tick *)

Lemma tick_camera (p : Sliders) (ctx : CanvasRenderingContext2D) (s : Closure * heap) :
  tick_inv s -> exists r, cameraImage (fst (fst (tick p ctx s))) = Some r.
Proof.
  intros (cam & before & d0 & d1 & t & d3 & d4 & rest & -> & _ & _ & _ & _ & _ & Hcam).
  destruct cam as [r|].
  - destruct (Hcam r eq_refl) as (k & o & -> & Hk).
    rewrite (tick_explicit p ctx d0 d1 t d3 d4 rest before k o Hk). cbv zeta. cbn. eauto.
  - rewrite tick_first. cbn. eauto.
Qed.

Lemma tick_verdict (p : Sliders) (ctx : CanvasRenderingContext2D) (s : Closure * heap) :
  tick_inv s ->
  (cameraImage (fst s) = None ->
   snd (tick p ctx s) = None /\ buffers (fst (tick p ctx s)) = buffers s) /\
  (cameraImage (fst s) <> None -> exists b, snd (tick p ctx s) = Some b).
Proof.
  intros (cam & before & d0 & d1 & t & d3 & d4 & rest & -> & _ & _ & _ & _ & _ & Hcam).
  cbn [fst cameraImage]. destruct cam as [r|]; split; try congruence.
  - intros _. destruct (Hcam r eq_refl) as (k & o & -> & Hk).
    rewrite (tick_explicit p ctx d0 d1 t d3 d4 rest before k o Hk). cbv zeta. cbn. eauto.
  - intros _. rewrite tick_first. cbn. split; reflexivity.
Qed.

Lemma reachable_without_camera (s : Closure * heap) :
  reachable s -> cameraImage (fst s) = None -> s = onload.
Proof.
  intros [|p ctx s0 H0] Hc; [reflexivity|].
  destruct (tick_camera p ctx s0 (reachable_inv _ H0)) as [r Hr]. congruence.
Qed.

(** X19: only the first tick after [onload] gives no verdict, and it leaves
    the five buffers as they were (it only records the frame); every later
    tick gives a verdict. *)
Theorem tick_without_verdict (p : Sliders) (ctx : CanvasRenderingContext2D)
    (s : Closure * heap) :
  reachable s ->
  (snd (tick p ctx s) = None <-> s = onload) /\
  (snd (tick p ctx s) = None -> buffers (fst (tick p ctx s)) = buffers s).
Proof.
  intros R. destruct (tick_verdict p ctx s (reachable_inv _ R)) as [Hnone Hsome].
  destruct (cameraImage (fst s)) as [r|] eqn:Hc.
  - destruct Hsome as [b Hb]; [congruence|]. rewrite Hb.
    split; [|congruence]. split; [congruence|].
    intros ->. discriminate.
  - destruct (Hnone eq_refl) as [Hv Hb]. split; [|intros _; exact Hb].
    split; [|intros _; exact Hv].
    intros _. now apply reachable_without_camera.
Qed.

Lemma tick_without_verdict_witness :
  (snd (tick example_sliders (example_canvas 200)
          (fst (tick example_sliders (example_canvas 90) onload))) = None
   <-> fst (tick example_sliders (example_canvas 90) onload) = onload) /\
  (snd (tick example_sliders (example_canvas 200)
          (fst (tick example_sliders (example_canvas 90) onload))) = None ->
   buffers (fst (tick example_sliders (example_canvas 200)
                   (fst (tick example_sliders (example_canvas 90) onload))))
   = buffers (fst (tick example_sliders (example_canvas 90) onload))).
Proof.
  apply (tick_without_verdict example_sliders (example_canvas 200)
           (fst (tick example_sliders (example_canvas 90) onload))).
  apply reachable_tick, reachable_onload.
Defined.

(** *** A still scene *)

Lemma read_new (ctx : CanvasRenderingContext2D) :
  well_sized (read new_GreyscaleImage ctx) /\
  bytes (data (read new_GreyscaleImage ctx)).
Proof.
  unfold read. cbv zeta.
  destruct (_setSize_spec new_GreyscaleImage (canvas_width ctx) (canvas_height ctx)
              well_sized_new) as (Hws & _ & _).
  set (this' := _setSize new_GreyscaleImage (canvas_width ctx) (canvas_height ctx)) in *.
  set (g := fun (i : nat) (_ : list Z) =>
              Js.div_pos
                (Js.add (Js.add (Js.of_read (load (imageData ctx) (Z.of_nat i * 4)))
                                (Js.of_read (load (imageData ctx) (Z.of_nat i * 4 + 1))))
                        (Js.of_read (load (imageData ctx) (Z.of_nat i * 4 + 2))))
                3).
  split.
  - apply set_data_well_sized; [assumption|apply (store_loop_length g)].
  - cbn [data set_data]. apply (store_loop_Forall g). intros i d' _ _ _.
    apply to_uint8_clamp_range.
Qed.

(** The cells of a result, read off the cells of the input. *)
Lemma Forall_by_cells (l1 l2 : list Z) (Q : Z -> Prop) :
  length l2 = length l1 ->
  (forall i a, l1 !! i = Some a -> exists b, l2 !! i = Some b /\ Q b) ->
  Forall Q l2.
Proof.
  intros Hlen H. apply Forall_lookup. intros i b Hb.
  destruct (lookup_lt_is_Some_2 l1 i) as [a Ha].
  { rewrite <- Hlen. eapply lookup_lt_Some; eassumption. }
  destruct (H i a Ha) as (b' & Hb' & Hq). congruence.
Qed.

Lemma subtract_self (g : GreyscaleImage) :
  Forall (fun v => v = 128) (data (subtract g g)).
Proof.
  apply (Forall_by_cells (data g)).
  - unfold subtract. cbn [data set_data]. apply store_loop_length.
  - intros i a Ha. eexists. split; [exact (subtract_lookup g g i a a Ha Ha)|]. lia.
Qed.

Lemma increaseContrast_still (this : GreyscaleImage) (f : Q) :
  Forall (fun v => v = 128) (data this) ->
  Forall (fun v => v = 128) (data (increaseContrast this (Js.Fin f))).
Proof.
  intros H. apply (Forall_by_cells (data this)); [apply increaseContrast_length|].
  intros i a Ha. pose proof (proj1 (Forall_lookup _ _) H i a Ha) as ->.
  eexists. split; [exact (increaseContrast_lookup _ _ _ _ Ha)|].
  cbn [Js.of_Z Js.sub Js.mul Js.add].
  rewrite (to_uint8_clamp_of_Qeq_Z _ 128); [reflexivity|].
  destruct f as [n m]. Qraw. lia.
Qed.

(** A source without a black or a white sample leaves an Idle counter
    Idle. *)
Lemma update_idle_stays (t : TransitionCountingImage) (source : GreyscaleImage)
    (mi : Js.number) :
  counter_ok t ->
  Forall (fun c => c = 0) (data (base t)) ->
  Forall (fun v => v <> 0 /\ v <> 255) (data source) ->
  Forall (fun c => c = 0) (data (base (update t source mi))).
Proof.
  intros Hok Hz Hsrc.
  assert (Hok0 : counter_ok (update_resize t source)) by now apply counter_ok_resize.
  assert (Hz0 : Forall (fun c => c = 0) (data (base (update_resize t source)))).
  { unfold update_resize, _setSize.
    destruct (negb (width source =? width (base t))
              || negb (height source =? height (base t))); [|assumption].
    cbn [base data]. now apply Forall_replicate. }
  apply (Forall_by_cells (data (base (update_resize t source)))); [apply update_length|].
  intros i c Hc. pose proof (proj1 (Forall_lookup _ _) Hz0 i c Hc) as ->.
  destruct (counter_ok_pixel_defined _ i 0 Hok0 Hc) as (e & tm & Hp & _).
  exists 0. split; [|reflexivity].
  assert (Hgrey : data source !! i <> Some 0 /\ data source !! i <> Some 255).
  { destruct (data source !! i) as [v|] eqn:E; [|split; discriminate].
    destruct (proj1 (Forall_lookup _ _) Hsrc i v E). split; congruence. }
  pose proof (update_pixelwise t source mi i _ Hp) as Hstep.
  unfold pixel_step in Hstep. cbn [Z.eqb] in Hstep.
  destruct (data source !! i) as [v|]; cbn [Js.loose_eq] in Hstep.
  - destruct Hgrey as [G0 G255].
    destruct (Z.eqb_spec v 0) as [->|_]; [congruence|].
    destruct (Z.eqb_spec v 255) as [->|_]; [congruence|].
    unfold pixel, defined in Hstep. congruence.
  - unfold pixel, defined in Hstep. congruence.
Qed.

Lemma toBinary_black (this : GreyscaleImage) (q : Q) :
  (1 <= q)%Q ->
  Forall (fun v => v = 0) (data this) ->
  Forall (fun v => v = 0) (data (toBinary this (Js.Fin q))).
Proof.
  intros Hq H. apply (Forall_by_cells (data this)); [apply toBinary_length|].
  intros i a Ha. pose proof (proj1 (Forall_lookup _ _) H i a Ha) as ->.
  unfold toBinary. cbn [data set_data].
  pose proof (lookup_lt_Some _ _ _ Ha) as Hlen.
  rewrite store_loop_done by assumption.
  rewrite load_of_nat, store_loop_untouched, Ha by lia.
  eexists. split; [reflexivity|].
  cbn [Js.of_read Js.of_Z Js.sub Js.add Js.mul].
  set (v := (inject_Z 0 + (inject_Z 0 - q + inject_Z 1) * inject_Z 255)%Q).
  pose proof (to_uint8_clamp_range (Js.Fin v)) as Hr.
  assert (Js.to_uint8_clamp (Js.Fin v) <= 0); [|lia].
  apply to_uint8_clamp_upper; [lia|]. unfold v. clear Hr v.
  destruct q as [n m]. Qraw. nia.
Qed.

Lemma discardOutliers_black (this : GreyscaleImage) (r : Q) :
  (0 < r)%Q ->
  Forall (fun v => v = 0) (data this) ->
  Forall (fun v => v = 0) (data (discardOutliers this (Js.Fin r))).
Proof.
  intros Hr Hz.
  unfold discardOutliers. cbn [data set_data].
  set (g := fun (i : nat) (d : list Z) =>
              if Js.ge (neighbourSum d (width this) (Z.of_nat i))
                       (Js.mul (Js.Fin r) (Js.of_Z 255))
              then Js.of_Z 255 else Js.of_Z 0).
  assert (Hall : forall n, (n <= length (data this))%nat ->
            Forall (fun v => v = 0)
              (for_loop n (fun i d => store d i (g i d)) (data this))).
  2: { now apply Hall. }
  induction n as [|n IH]; intros Hn; [exact Hz|].
  rewrite for_loop_S. specialize (IH ltac:(lia)).
  set (d := for_loop n (fun i d => store d i (g i d)) (data this)) in *.
  apply Forall_insert; [assumption|].
  assert (Hd : forall k v, load d k = Some v -> v = 0).
  { intros k v Hk. unfold load in Hk. destruct (k <? 0); [discriminate|].
    exact (proj1 (Forall_lookup _ _) IH _ _ Hk). }
  unfold g.
  unfold neighbourSum.
  repeat match goal with
         | |- context [load d ?k] =>
             let E := fresh "E" in
             destruct (load d k) as [?v|] eqn:E;
             [apply Hd in E; subst|]
         end;
    cbn [Js.of_read Js.add Js.ge Js.mul Js.of_Z]; try reflexivity.
  assert (Hlt : Qle_bool (r * inject_Z 255)
                  (inject_Z 0 + inject_Z 0 + inject_Z 0 + inject_Z 0 + inject_Z 0
                   + inject_Z 0 + inject_Z 0 + inject_Z 0 + inject_Z 0) = false).
  { apply Qle_bool_false. destruct r as [a b]. unfold Qlt in *. Qraw.
    cbn in *. nia. }
  now rewrite Hlt.
Qed.

Lemma still_inv_onload (ctx : CanvasRenderingContext2D) : still_inv ctx onload.
Proof.
  exists None, None, new_GreyscaleImage, new_GreyscaleImage,
    new_TransitionCountingImage, new_GreyscaleImage, new_GreyscaleImage, [].
  repeat split; try apply well_sized_new; try apply counter_ok_new;
    try constructor.
  intros r H. discriminate.
Qed.

Lemma still_tick (p : Sliders) (ctx : CanvasRenderingContext2D) (s : Closure * heap) :
  calm p -> still_inv ctx s ->
  still_inv ctx (fst (tick p ctx s)) /\
  snd (tick p ctx s)
  = match cameraImage (fst s) with Some _ => Some false | None => None end.
Proof.
  intros ((f & Hf) & (q & Hq & Hq1) & (r & Hr & Hr0))
         (cam & before & d0 & d1 & t & d3 & d4 & rest & -> &
          H0 & H1 & Ht & H3 & H4 & Hz & Hcam).
  destruct (read_new ctx) as [Gws Gb].
  set (G := read new_GreyscaleImage ctx) in *.
  cbn [fst cameraImage]. destruct cam as [c|].
  - destruct (Hcam c eq_refl) as (k & -> & Hk).
    rewrite (tick_explicit p ctx d0 d1 t d3 d4 rest before k _ Hk). cbv zeta.
    fold G. cbn [image_of]. rewrite Hf, Hq, Hr.
    rewrite (updateFrom_copy d0 G H0 Gws Gb).
    set (diff := subtract G G).
    assert (Dws : well_sized diff) by (apply subtract_well_sized; exact Gws).
    assert (D128 : Forall (fun v => v = 128) (data diff)) by apply subtract_self.
    assert (Db : bytes (data diff)).
    { eapply Forall_impl; [exact D128|]. cbn. intros x ->. lia. }
    rewrite (updateFrom_copy d1 diff H1 Dws Db).
    set (hc := increaseContrast diff (Js.Fin f)).
    assert (Hc128 : Forall (fun v => v = 128) (data hc))
      by now apply increaseContrast_still.
    set (st := update t hc (maxInterval p)).
    assert (Sok : counter_ok st) by now apply counter_ok_update.
    assert (Sz : Forall (fun c => c = 0) (data (base st))).
    { apply update_idle_stays; [assumption..|].
      eapply Forall_impl; [exact Hc128|]. cbn. intros x ->. lia. }
    rewrite (updateFrom_copy d3 (base st) H3 (ok_sized _ Sok) (ok_count _ Sok)).
    set (wm0 := toBinary (base st) (Js.Fin q)).
    assert (Wz : Forall (fun v => v = 0) (data wm0)) by now apply toBinary_black.
    assert (Wws : well_sized wm0) by (apply toBinary_well_sized, (ok_sized _ Sok)).
    assert (Wb : bytes (data wm0)).
    { eapply Forall_impl; [exact Wz|]. cbn. intros x ->. lia. }
    rewrite (updateFrom_copy d4 wm0 H4 Wws Wb).
    set (wm := discardOutliers wm0 (Js.Fin r)).
    assert (Fz : Forall (fun v => v = 0) (data wm)) by now apply discardOutliers_black.
    cbn [fst snd]. split.
    + exists (Some (5 + length rest)%nat), (Some (5 + k)%nat), diff, hc, st, wm, wm0,
        (rest ++ [Grey G]).
      split; [reflexivity|].
      repeat (split; [first [assumption | now apply increaseContrast_well_sized
                            | now apply discardOutliers_well_sized]|]).
      intros r' [= <-]. exists (length rest). split; [reflexivity|apply lookup_last].
    + rewrite (all_zero_pixelSum wm Fz). reflexivity.
  - rewrite tick_first. fold G. cbn [fst snd]. split; [|reflexivity].
    exists (Some (5 + length rest)%nat), None, d0, d1, t, d3, d4, (rest ++ [Grey G]).
    split; [reflexivity|]. repeat (split; [assumption|]).
    intros r' [= <-]. exists (length rest). split; [reflexivity|apply lookup_last].
Qed.

Lemma ticks_snoc (ctx : CanvasRenderingContext2D) (ps : list Sliders) (p : Sliders)
    (s : Closure * heap) :
  ticks ctx (ps ++ [p]) s = fst (tick p ctx (ticks ctx ps s)).
Proof. unfold ticks. now rewrite fold_left_app. Qed.

Lemma still_run (ctx : CanvasRenderingContext2D) (ps : list Sliders) :
  Forall calm ps ->
  still_inv ctx (ticks ctx ps onload) /\
  (cameraImage (fst (ticks ctx ps onload)) = None <-> ps = []).
Proof.
  induction ps as [|p ps IH] using rev_ind; intros Hc.
  { split; [apply still_inv_onload|]. split; reflexivity. }
  apply Forall_app in Hc as [Hps Hp]. apply Forall_cons in Hp as [Hp _].
  destruct (IH Hps) as [Hinv _].
  rewrite ticks_snoc.
  destruct (still_tick p ctx _ Hp Hinv) as [Hinv' _].
  split; [exact Hinv'|]. split.
  - intros Hnone. exfalso.
    destruct Hinv as (cam & before & d0 & d1 & t & d3 & d4 & rest & E & H0 & H1 & Ht &
                      H3 & H4 & _ & Hcam).
    assert (Hti : tick_inv (ticks ctx ps onload)).
    { exists cam, before, d0, d1, t, d3, d4, rest. repeat (split; [assumption|]).
      intros r Hr. destruct (Hcam r Hr) as (k & -> & Hk). eauto. }
    destruct (tick_camera p ctx _ Hti) as [r Hr]. congruence.
  - intros E. now destruct ps.
Qed.

(** X20: a still scene never reads as waving.  Tick after tick in front of
    an unchanging canvas, starting from [onload] and with the sliders in
    their working range (finite contrast factor, transition count at least
    1, positive outlier threshold, any maxInterval), the first tick gives no
    verdict and every later one says "Nope": the differences are all 128,
    which the counter ignores. *)
Theorem still_scene_never_waves (ctx : CanvasRenderingContext2D)
    (ps : list Sliders) (p : Sliders) :
  Forall calm ps -> calm p ->
  snd (tick p ctx (ticks ctx ps onload))
  = match ps with [] => None | _ :: _ => Some false end.
Proof.
  intros Hps Hp. destruct (still_run ctx ps Hps) as [Hinv Hcam].
  destruct (still_tick p ctx _ Hp Hinv) as [_ ->].
  destruct (cameraImage (fst (ticks ctx ps onload))) as [r|] eqn:E.
  - destruct ps; [|reflexivity]. cbn in E. discriminate.
  - destruct ps as [|p0 ps]; [reflexivity|].
    destruct Hcam as [Hcam _]. specialize (Hcam eq_refl). discriminate.
Qed.

Lemma example_sliders_calm : calm example_sliders.
Proof.
  split; [eexists; reflexivity|].
  split; eexists; (split; [reflexivity|]); unfold Qle, Qlt; simpl; lia.
Defined.

Lemma still_scene_never_waves_witness :
  snd (tick example_sliders (example_canvas 200)
         (ticks (example_canvas 200) [example_sliders; example_sliders] onload))
  = Some false.
Proof.
  apply (still_scene_never_waves (example_canvas 200)
           [example_sliders; example_sliders] example_sliders).
  - repeat constructor; apply example_sliders_calm.
  - apply example_sliders_calm.
Defined.

(** ** debugDraw *)

Section PaintLoop.
Variables r g b : nat -> Js.number.
Let body (i : nat) (target : list Z) := paint target i (r i) (g i) (b i).

(** The four bytes of pixel [j]. *)
Let quad (target : list Z) (j : nat) : list (option Z) :=
  [target !! (j * 4)%nat; target !! (j * 4 + 1)%nat;
   target !! (j * 4 + 2)%nat; target !! (j * 4 + 3)%nat].

Lemma paint_length (target : list Z) (i : nat) (x y z : Js.number) :
  length (paint target i x y z) = length target.
Proof. unfold paint. now rewrite !length_store. Qed.

Lemma paint_loop_length (n : nat) (target : list Z) :
  length (for_loop n body target) = length target.
Proof.
  apply (for_loop_inv body (fun t => length t = length target)); [reflexivity|].
  intros i t _ H. unfold body. now rewrite paint_length.
Qed.

Lemma paint_other (target : list Z) (i j : nat) (x y z : Js.number) :
  i <> j -> quad (paint target i x y z) j = quad target j.
Proof.
  intros H. unfold quad, paint. now rewrite !store_lookup_ne by lia.
Qed.

Lemma paint_own (target : list Z) (i : nat) (x y z : Js.number) :
  (i * 4 + 3 < length target)%nat ->
  quad (paint target i x y z) i
  = [Some (Js.to_uint8_clamp x); Some (Js.to_uint8_clamp y);
     Some (Js.to_uint8_clamp z); Some 255].
Proof.
  intros H. unfold quad, paint.
  rewrite (store_lookup_ne _ (i * 4 + 3) (i * 4)) by lia.
  rewrite (store_lookup_ne _ (i * 4 + 2) (i * 4)) by lia.
  rewrite (store_lookup_ne _ (i * 4 + 1) (i * 4)) by lia.
  rewrite (store_lookup_ne _ (i * 4 + 3) (i * 4 + 1)) by lia.
  rewrite (store_lookup_ne _ (i * 4 + 2) (i * 4 + 1)) by lia.
  rewrite (store_lookup_ne _ (i * 4 + 3) (i * 4 + 2)) by lia.
  rewrite !store_lookup_eq by (rewrite ?length_store; lia).
  reflexivity.
Qed.

(** After the loop pixel [i] holds its three colours and an opaque alpha. *)
Lemma paint_loop_quad (n : nat) (target : list Z) (i : nat) :
  (i < n)%nat -> (n * 4 <= length target)%nat ->
  quad (for_loop n body target) i
  = [Some (Js.to_uint8_clamp (r i)); Some (Js.to_uint8_clamp (g i));
     Some (Js.to_uint8_clamp (b i)); Some 255].
Proof.
  intros Hi Hlen.
  rewrite (for_loop_done body quad) by (assumption || (intros; now apply paint_other)).
  unfold body at 1. apply paint_own. rewrite paint_loop_length. lia.
Qed.
End PaintLoop.

(** The cell [read] writes, whatever the canvas holds. *)
Lemma read_cell (this : GreyscaleImage) (ctx : CanvasRenderingContext2D) (i : nat) :
  well_sized this ->
  Z.of_nat i < canvas_width ctx * canvas_height ctx ->
  data (read this ctx) !! i
  = Some (Js.to_uint8_clamp
            (Js.div_pos
               (Js.add (Js.add (Js.of_read (imageData ctx !! (i * 4)%nat))
                               (Js.of_read (imageData ctx !! (i * 4 + 1)%nat)))
                       (Js.of_read (imageData ctx !! (i * 4 + 2)%nat)))
               3)).
Proof.
  intros Hws Hi. unfold read.
  destruct (_setSize_spec this (canvas_width ctx) (canvas_height ctx) Hws)
    as (Hws' & Hw & Hh).
  set (this' := _setSize this (canvas_width ctx) (canvas_height ctx)) in *.
  assert (Hlen : (i < length (data this'))%nat).
  { rewrite Hws', Hw, Hh. lia. }
  cbn [data set_data].
  rewrite store_loop_done by assumption.
  replace (Z.of_nat i * 4) with (Z.of_nat (i * 4)) by lia.
  replace (Z.of_nat (i * 4) + 1) with (Z.of_nat (i * 4 + 1)) by lia.
  replace (Z.of_nat (i * 4) + 2) with (Z.of_nat (i * 4 + 2)) by lia.
  now rewrite !load_of_nat.
Qed.

Lemma read_shape (this : GreyscaleImage) (ctx : CanvasRenderingContext2D) :
  well_sized this ->
  width (read this ctx) = canvas_width ctx /\
  height (read this ctx) = canvas_height ctx /\
  length (data (read this ctx)) = Z.to_nat (canvas_width ctx * canvas_height ctx).
Proof.
  intros Hws. unfold read.
  destruct (_setSize_spec this (canvas_width ctx) (canvas_height ctx) Hws)
    as (Hws' & Hw & Hh).
  set (this' := _setSize this (canvas_width ctx) (canvas_height ctx)) in *.
  cbn [data width height set_data]. repeat split; try assumption.
  set (g := fun (i : nat) (_ : list Z) =>
              Js.div_pos
                (Js.add (Js.add (Js.of_read (load (imageData ctx) (Z.of_nat i * 4)))
                                (Js.of_read (load (imageData ctx) (Z.of_nat i * 4 + 1))))
                        (Js.of_read (load (imageData ctx) (Z.of_nat i * 4 + 2))))
                3).
  rewrite (store_loop_length g). now rewrite Hws', Hw, Hh.
Qed.

Lemma no_empty_side (w h : Z) :
  0 < w -> 0 < h -> (w =? 0) || (h =? 0) = false.
Proof.
  intros Hw Hh. destruct (Z.eqb_spec w 0); [lia|]. destruct (Z.eqb_spec h 0); [lia|].
  reflexivity.
Qed.

(** X21: drawing an image in grey and reading the canvas back gives the
    image again: [debugDraw] without a level map paints sample v as
    (v, v, v, 255) and [read] averages the three colours to v. *)
Theorem debugDraw_read_round_trip (img this : GreyscaleImage) (dflt : option (list Z)) :
  well_sized img -> bytes (data img) ->
  0 < width img -> 0 < height img ->
  well_sized this ->
  exists canvas,
    debugDraw img None dflt = Some canvas /\ read this canvas = img.
Proof.
  intros Hws Hb Hw Hh Hthis. unfold debugDraw.
  rewrite (no_empty_side _ _ Hw Hh). cbv zeta beta. eexists. split; [reflexivity|].
  set (tgt := for_loop (length (data img))
                (fun i target =>
                   paint target i (Js.of_read (load (data img) (Z.of_nat i)))
                     (Js.of_read (load (data img) (Z.of_nat i)))
                     (Js.of_read (load (data img) (Z.of_nat i))))
                (new_array (4 * (width img * height img)))).
  set (cv := {| canvas_width := width img; canvas_height := height img;
                imageData := tgt |}).
  destruct (read_shape this cv Hthis) as (Rw & Rh & Rl).
  apply image_eq; [|exact Rw|exact Rh].
  apply list_eq_cells.
  { rewrite Rl. symmetry. exact Hws. }
  intros i v Hv.
  pose proof (lookup_lt_Some _ _ _ Hv) as Hi.
  rewrite read_cell by (assumption || (cbn; unfold well_sized in Hws; lia)).
  cbn [imageData cv].
  assert (Hlen4 : (length (data img) * 4
                   <= length (new_array (4 * (width img * height img))))%nat).
  { rewrite length_new_array. unfold well_sized in Hws. lia. }
  pose proof (paint_loop_quad
                (fun i => Js.of_read (load (data img) (Z.of_nat i)))
                (fun i => Js.of_read (load (data img) (Z.of_nat i)))
                (fun i => Js.of_read (load (data img) (Z.of_nat i)))
                (length (data img))
                (new_array (4 * (width img * height img))) i Hi Hlen4) as Hq.
  cbv zeta beta in Hq. fold tgt in Hq.
  injection Hq as -> -> -> _.
  rewrite load_of_nat, Hv. cbn [Js.of_read].
  pose proof (bytes_lookup _ _ _ Hb Hv) as Bv.
  rewrite to_uint8_clamp_byte by assumption.
  rewrite average_rounds by assumption.
  f_equal. pose proof (Z_div_mod_eq_full (v + v + v + 1) 3).
  pose proof (Z.mod_pos_bound (v + v + v + 1) 3 ltac:(lia)). lia.
Qed.

Lemma debugDraw_read_round_trip_witness :
  exists canvas,
    debugDraw (mkGreyscaleImage [0; 100; 128; 255] 2 2) None None = Some canvas /\
    read new_GreyscaleImage canvas = mkGreyscaleImage [0; 100; 128; 255] 2 2.
Proof.
  apply (debugDraw_read_round_trip (mkGreyscaleImage [0; 100; 128; 255] 2 2)
           new_GreyscaleImage None);
    first [ reflexivity | repeat constructor; lia | lia ].
Defined.

(** The level-map loop, when every sample has a level, is the plain loop
    that paints the levels. *)
Lemma level_loop_total (data_ : list Z) (lm : LevelMap) (dl : option (list Z))
    (n : nat) (target : list Z) :
  (forall i, (i < n)%nat ->
     exists px, level_of lm dl (load data_ (Z.of_nat i)) = Some px) ->
  for_loop n
    (fun i acc =>
       match acc with
       | Some target =>
           match level_of lm dl (load data_ (Z.of_nat i)) with
           | Some px =>
               Some (paint target i (Js.of_read (px !! 0%nat))
                       (Js.of_read (px !! 1%nat)) (Js.of_read (px !! 2%nat)))
           | None => None
           end
       | None => None
       end)
    (Some target)
  = Some (for_loop n
            (fun i target =>
               paint target i
                 (Js.of_read (default [] (level_of lm dl (load data_ (Z.of_nat i))) !! 0%nat))
                 (Js.of_read (default [] (level_of lm dl (load data_ (Z.of_nat i))) !! 1%nat))
                 (Js.of_read (default [] (level_of lm dl (load data_ (Z.of_nat i))) !! 2%nat)))
            target).
Proof.
  induction n as [|n IH]; intros H; [reflexivity|].
  rewrite !for_loop_S, IH by (intros i Hi; apply H; lia).
  destruct (H n ltac:(lia)) as [px ->]. reflexivity.
Qed.

(** Once a level is missing the loop has thrown. *)
Lemma level_loop_throws (data_ : list Z) (lm : LevelMap) (dl : option (list Z))
    (n i : nat) (start : option (list Z)) :
  (i < n)%nat ->
  level_of lm dl (load data_ (Z.of_nat i)) = None ->
  for_loop n
    (fun i acc =>
       match acc with
       | Some target =>
           match level_of lm dl (load data_ (Z.of_nat i)) with
           | Some px =>
               Some (paint target i (Js.of_read (px !! 0%nat))
                       (Js.of_read (px !! 1%nat)) (Js.of_read (px !! 2%nat)))
           | None => None
           end
       | None => None
       end)
    start
  = None.
Proof.
  intros Hi Hnone. induction n as [|n IH]; [lia|].
  rewrite for_loop_S.
  destruct (decide (i = n)) as [->|Hne].
  - rewrite Hnone. now destruct (for_loop n _ start).
  - now rewrite IH by lia.
Qed.

(** X22: with a default level, [debugDraw] with a level map never fails on
    an image with a non-empty area, and it paints every pixel opaque, in
    the colour its sample has in the map or else in the default colour. *)
Theorem debugDraw_levels (this : GreyscaleImage) (lm : LevelMap) (dl : list Z) :
  well_sized this -> 0 < width this -> 0 < height this ->
  exists canvas,
    debugDraw this (Some lm) (Some dl) = Some canvas /\
    canvas_width canvas = width this /\ canvas_height canvas = height this /\
    forall i v, data this !! i = Some v ->
      let px := default dl (lm v) in
      imageData canvas !! (i * 4)%nat
        = Some (Js.to_uint8_clamp (Js.of_read (px !! 0%nat))) /\
      imageData canvas !! (i * 4 + 1)%nat
        = Some (Js.to_uint8_clamp (Js.of_read (px !! 1%nat))) /\
      imageData canvas !! (i * 4 + 2)%nat
        = Some (Js.to_uint8_clamp (Js.of_read (px !! 2%nat))) /\
      imageData canvas !! (i * 4 + 3)%nat = Some 255.
Proof.
  intros Hws Hw Hh. unfold debugDraw.
  rewrite (no_empty_side _ _ Hw Hh). cbv zeta beta.
  rewrite level_loop_total.
  2: { intros i _. unfold level_of.
       destruct (load (data this) (Z.of_nat i)) as [v|]; [|eauto].
       destruct (lm v); eauto. }
  eexists. split; [reflexivity|]. cbn [canvas_width canvas_height imageData].
  split; [reflexivity|]. split; [reflexivity|].
  intros i v Hv.
  pose proof (lookup_lt_Some _ _ _ Hv) as Hi.
  assert (Hlen4 : (length (data this) * 4
                   <= length (new_array (4 * (width this * height this))))%nat).
  { rewrite length_new_array. unfold well_sized in Hws. lia. }
  pose proof (paint_loop_quad
                (fun i => Js.of_read
                   (default [] (level_of lm (Some dl) (load (data this) (Z.of_nat i))) !! 0%nat))
                (fun i => Js.of_read
                   (default [] (level_of lm (Some dl) (load (data this) (Z.of_nat i))) !! 1%nat))
                (fun i => Js.of_read
                   (default [] (level_of lm (Some dl) (load (data this) (Z.of_nat i))) !! 2%nat))
                (length (data this))
                (new_array (4 * (width this * height this))) i Hi Hlen4) as Hq.
  cbv zeta beta in Hq. injection Hq as -> -> -> ->.
  rewrite load_of_nat, Hv. unfold level_of.
  destruct (lm v); repeat split; reflexivity.
Qed.

Lemma debugDraw_levels_witness :
  exists canvas,
    debugDraw (mkGreyscaleImage [0; 1; 7; 200] 2 2)
      (Some (fun v => if v =? 1 then Some [0; 0; 255] else None)) (Some [255; 255; 255])
    = Some canvas /\
    canvas_width canvas = 2 /\ canvas_height canvas = 2 /\
    forall i v, [0; 1; 7; 200] !! i = Some v ->
      let px := default [255; 255; 255] (if v =? 1 then Some [0; 0; 255] else None) in
      imageData canvas !! (i * 4)%nat
        = Some (Js.to_uint8_clamp (Js.of_read (px !! 0%nat))) /\
      imageData canvas !! (i * 4 + 1)%nat
        = Some (Js.to_uint8_clamp (Js.of_read (px !! 1%nat))) /\
      imageData canvas !! (i * 4 + 2)%nat
        = Some (Js.to_uint8_clamp (Js.of_read (px !! 2%nat))) /\
      imageData canvas !! (i * 4 + 3)%nat = Some 255.
Proof.
  apply (debugDraw_levels (mkGreyscaleImage [0; 1; 7; 200] 2 2)
           (fun v => if v =? 1 then Some [0; 0; 255] else None) [255; 255; 255]);
    first [ reflexivity | lia ].
Defined.

(** X23: without a default level, [debugDraw] with a level map fails
    exactly when some sample of the image has no level in the map (the
    read of [pixel[0]] on [null]). *)
Theorem debugDraw_fails (this : GreyscaleImage) (lm : LevelMap) :
  0 < width this -> 0 < height this ->
  (debugDraw this (Some lm) None = None
   <-> exists i v, data this !! i = Some v /\ lm v = None).
Proof.
  intros Hw Hh.
  unfold debugDraw. rewrite (no_empty_side _ _ Hw Hh). cbv zeta beta.
  split.
  - intros Hnone.
    destruct (decide (Exists (fun v => lm v = None) (data this))) as [Hex|Hall].
    { apply Exists_exists in Hex as (v & Hin & Hv).
      apply list_elem_of_lookup in Hin as [i Hi]. eauto. }
    exfalso. apply not_Exists_Forall in Hall; [|intros x; apply _].
    rewrite level_loop_total in Hnone; [discriminate|].
    intros i Hi. rewrite load_of_nat.
    destruct (lookup_lt_is_Some_2 (data this) i Hi) as [v Hv]. rewrite Hv.
    pose proof (proj1 (Forall_lookup _ _) Hall i v Hv) as Hlv. cbn in Hlv.
    unfold level_of. destruct (lm v); [eauto|contradiction].
  - intros (i & v & Hv & Hlv).
    rewrite (level_loop_throws (data this) lm None (length (data this)) i); [reflexivity| |].
    + eapply lookup_lt_Some; eassumption.
    + rewrite load_of_nat, Hv. unfold level_of. now rewrite Hlv.
Qed.

Lemma debugDraw_fails_witness :
  debugDraw (mkGreyscaleImage [0; 1; 7; 200] 2 2)
    (Some (fun v => if v =? 1 then Some [0; 0; 255] else None)) None = None
  <-> exists i v, [0; 1; 7; 200] !! i = Some v /\
                  (if v =? 1 then Some [0; 0; 255] else None) = None.
Proof.
  apply (debugDraw_fails (mkGreyscaleImage [0; 1; 7; 200] 2 2)
           (fun v => if v =? 1 then Some [0; 0; 255] else None));
    simpl; lia.
Defined.

(** ** The data flow of a tick *)

(** A loop that writes every cell leaves bytes, whatever it started from. *)
Lemma store_loop_all_bytes (g : nat -> list Z -> Js.number) (d : list Z) :
  bytes (for_loop (length d) (fun i d' => store d' i (g i d')) d).
Proof.
  apply (store_loop_Forall g). intros i d' _ _ _. apply to_uint8_clamp_range.
Qed.

Lemma subtract_all_bytes (this other : GreyscaleImage) :
  bytes (data (subtract this other)).
Proof.
  unfold subtract. cbn [data set_data].
  apply (store_loop_all_bytes
           (fun i d => Js.add (Js.sub (Js.of_read (load d (Z.of_nat i)))
                                      (Js.of_read (load (data other) (Z.of_nat i))))
                              (Js.of_Z 128))).
Qed.

Lemma toBinary_all_bytes (this : GreyscaleImage) (t : Js.number) :
  bytes (data (toBinary this t)).
Proof.
  unfold toBinary. cbn [data set_data].
  apply (store_loop_all_bytes
           (fun i d =>
              Js.add (Js.of_read (load d (Z.of_nat i)))
                (Js.mul (Js.add (Js.sub (Js.of_read (load d (Z.of_nat i))) t) (Js.of_Z 1))
                        (Js.of_Z 255)))).
Qed.

(** X24: what one tick computes.  In a reachable state with a previous
    frame, the tick leaves in the five buffers: the difference of the
    canvas's image and the previous frame; its contrast-boosted copy; the
    counter updated with that boosted difference as it is (it is not made
    binary first); in [filteredWaveMap] the counter's counts put through
    [toBinary] with the transition count; in [waveMap] that same map after
    [discardOutliers].  The verdict is whether [waveMap] has a sample that
    is not 0.  So, against their names, [filteredWaveMap] holds the
    unfiltered map and [waveMap] the filtered one. *)
Theorem tick_data_flow (p : Sliders) (ctx : CanvasRenderingContext2D)
    (s : Closure * heap) (prev : ref) (frame : object) (t : TransitionCountingImage) :
  reachable s ->
  cameraImage (fst s) = Some prev ->
  snd s !! prev = Some frame ->
  snd s !! stateImage (fst s) = Some (Counter t) ->
  let cur := read new_GreyscaleImage ctx in
  let diff := subtract cur (image_of frame) in
  let boosted := increaseContrast diff (contrastFactor p) in
  let counter := update t boosted (maxInterval p) in
  let unfiltered := toBinary (base counter) (transitionCount p) in
  let filtered := discardOutliers unfiltered (outlierThreshold p) in
  buffers (fst (tick p ctx s))
  = [Some (Grey diff); Some (Grey boosted); Some (Counter counter);
     Some (Grey filtered); Some (Grey unfiltered)] /\
  snd (tick p ctx s) = Some (0 <? pixelSum filtered).
Proof.
  intros R C F T.
  destruct (reachable_inv _ R)
    as (cam & bef & d0 & d1 & t0 & d3 & d4 & rest & -> & H0 & H1 & Ht & H3 & H4 & Hcam).
  cbn [fst snd cameraImage stateImage] in *. subst cam.
  destruct (Hcam prev eq_refl) as (k & o & -> & K).
  assert (o = frame) as -> by (change (rest !! k = Some frame) in F; congruence).
  assert (t0 = t) as ->.
  { change (Some (Counter t0) = Some (Counter t)) in T. congruence. }
  rewrite (tick_explicit p ctx d0 d1 t d3 d4 rest bef k frame K).
  cbv zeta.
  destruct (read_new ctx) as [Gws Gb].
  rewrite (updateFrom_copy d0 _ H0 Gws Gb).
  set (diff := subtract (read new_GreyscaleImage ctx) (image_of frame)).
  rewrite (updateFrom_copy d1 diff H1
             (subtract_well_sized _ _ Gws) (subtract_all_bytes _ _)).
  set (boosted := increaseContrast diff (contrastFactor p)).
  set (counter := update t boosted (maxInterval p)).
  assert (Cok : counter_ok counter) by now apply counter_ok_update.
  rewrite (updateFrom_copy d3 (base counter) H3 (ok_sized _ Cok) (ok_count _ Cok)).
  set (unfiltered := toBinary (base counter) (transitionCount p)).
  rewrite (updateFrom_copy d4 unfiltered H4
             (toBinary_well_sized _ _ (ok_sized _ Cok)) (toBinary_all_bytes _ _)).
  split; reflexivity.
Qed.

Lemma tick_data_flow_witness :
  buffers (fst (tick example_sliders (example_canvas 200)
                  (fst (tick example_sliders (example_canvas 90) onload))))
  = [Some (Grey (subtract (read new_GreyscaleImage (example_canvas 200))
                          (mkGreyscaleImage [90; 0] 2 1)));
     Some (Grey (increaseContrast
                   (subtract (read new_GreyscaleImage (example_canvas 200))
                             (mkGreyscaleImage [90; 0] 2 1))
                   (Js.of_Z 10)));
     Some (Counter (update new_TransitionCountingImage
                      (increaseContrast
                         (subtract (read new_GreyscaleImage (example_canvas 200))
                                   (mkGreyscaleImage [90; 0] 2 1))
                         (Js.of_Z 10))
                      (Js.of_Z 10)));
     Some (Grey (discardOutliers
                   (toBinary
                      (base (update new_TransitionCountingImage
                               (increaseContrast
                                  (subtract (read new_GreyscaleImage (example_canvas 200))
                                            (mkGreyscaleImage [90; 0] 2 1))
                                  (Js.of_Z 10))
                               (Js.of_Z 10)))
                      (Js.of_Z 1))
                   (Js.Fin (1 # 2))));
     Some (Grey (toBinary
                   (base (update new_TransitionCountingImage
                            (increaseContrast
                               (subtract (read new_GreyscaleImage (example_canvas 200))
                                         (mkGreyscaleImage [90; 0] 2 1))
                               (Js.of_Z 10))
                            (Js.of_Z 10)))
                   (Js.of_Z 1)))].
Proof.
  assert (R : reachable (fst (tick example_sliders (example_canvas 90) onload)))
    by apply reachable_tick, reachable_onload.
  exact (proj1 (tick_data_flow example_sliders (example_canvas 200)
                  (fst (tick example_sliders (example_canvas 90) onload))
                  5%nat (Grey (mkGreyscaleImage [90; 0] 2 1))
                  new_TransitionCountingImage
                  R eq_refl eq_refl eq_refl)).
Defined.

(** X25: [read] always leaves a well-formed image: it has the canvas's
    dimensions, one byte per pixel, and every sample is a byte (a pixel
    whose colour bytes are missing from the canvas data reads as 0). *)
Theorem read_shape_and_bytes (this : GreyscaleImage) (ctx : CanvasRenderingContext2D) :
  well_sized this ->
  width (read this ctx) = canvas_width ctx /\
  height (read this ctx) = canvas_height ctx /\
  length (data (read this ctx)) = Z.to_nat (canvas_width ctx * canvas_height ctx) /\
  bytes (data (read this ctx)) /\
  (forall i, Z.of_nat i < canvas_width ctx * canvas_height ctx ->
     (length (imageData ctx) <= i * 4)%nat ->
     data (read this ctx) !! i = Some 0).
Proof.
  intros Hws. destruct (read_shape this ctx Hws) as (Hw & Hh & Hl).
  repeat (split; [assumption|]). split.
  - unfold read. cbv zeta. cbn [data set_data].
    apply (store_loop_all_bytes
             (fun i _ =>
                Js.div_pos
                  (Js.add (Js.add (Js.of_read (load (imageData ctx) (Z.of_nat i * 4)))
                                  (Js.of_read (load (imageData ctx) (Z.of_nat i * 4 + 1))))
                          (Js.of_read (load (imageData ctx) (Z.of_nat i * 4 + 2))))
                  3)).
  - intros i Hi Hshort. rewrite read_cell by assumption.
    now rewrite (lookup_ge_None_2 (imageData ctx) (i * 4)) by lia.
Qed.

Lemma read_shape_and_bytes_witness :
  width (read (mkGreyscaleImage [7] 1 1) (mkContext 2 1 [30; 60; 90; 255])) = 2 /\
  height (read (mkGreyscaleImage [7] 1 1) (mkContext 2 1 [30; 60; 90; 255])) = 1 /\
  length (data (read (mkGreyscaleImage [7] 1 1) (mkContext 2 1 [30; 60; 90; 255])))
  = Z.to_nat (2 * 1) /\
  bytes (data (read (mkGreyscaleImage [7] 1 1) (mkContext 2 1 [30; 60; 90; 255]))) /\
  (forall i, Z.of_nat i < 2 * 1 ->
     (length [30; 60; 90; 255] <= i * 4)%nat ->
     data (read (mkGreyscaleImage [7] 1 1) (mkContext 2 1 [30; 60; 90; 255])) !! i
     = Some 0).
Proof.
  apply (read_shape_and_bytes (mkGreyscaleImage [7] 1 1)
           (mkContext 2 1 [30; 60; 90; 255])).
  reflexivity.
Defined.

Lemma mul_NaN_r (a : Js.number) : Js.mul a Js.NaN = Js.NaN.
Proof. now destruct a. Qed.

(** X26: a slider without a value reads as NaN, and NaN blacks the image
    out: with a NaN factor [increaseContrast] sets every sample to 0, and so
    do [toBinary] with a NaN threshold and [discardOutliers] with a NaN
    threshold. *)
Theorem NaN_parameter_blacks_out (this : GreyscaleImage) :
  Forall (fun v => v = 0) (data (increaseContrast this Js.NaN)) /\
  Forall (fun v => v = 0) (data (toBinary this Js.NaN)) /\
  Forall (fun v => v = 0) (data (discardOutliers this Js.NaN)).
Proof.
  split; [|split].
  - unfold increaseContrast. cbn [data set_data].
    apply (store_loop_Forall
             (fun i d => Js.add (Js.of_read (load d (Z.of_nat i)))
                           (Js.mul (Js.sub (Js.of_read (load d (Z.of_nat i))) (Js.of_Z 128))
                                   Js.NaN))).
    intros i d' _ _ _. now rewrite mul_NaN_r, add_NaN_r.
  - unfold toBinary. cbn [data set_data].
    apply (store_loop_Forall
             (fun i d =>
                Js.add (Js.of_read (load d (Z.of_nat i)))
                  (Js.mul (Js.add (Js.sub (Js.of_read (load d (Z.of_nat i))) Js.NaN)
                                  (Js.of_Z 1))
                          (Js.of_Z 255)))).
    intros i d' _ _ _.
    destruct (Js.of_read (load d' (Z.of_nat i))); reflexivity.
  - unfold discardOutliers. cbn [data set_data].
    apply (store_loop_Forall
             (fun i d =>
                if Js.ge (neighbourSum d (width this) (Z.of_nat i))
                         (Js.mul Js.NaN (Js.of_Z 255))
                then Js.of_Z 255 else Js.of_Z 0)).
    intros i d' _ _ _. cbn [Js.mul].
    destruct (neighbourSum d' (width this) (Z.of_nat i)); reflexivity.
Qed.
